(** * amaragame: registry, stores and session controller

    A shallow embedding of [js/storage.js], [js/profile.js],
    [js/progress.js], [js/registry.js] and the screen-transition part of
    [js/app.js], with the properties of the platform layer proved about it.

    Conventions of the embedding.
    - A plain object used as a dictionary ([data.profiles], the per-profile
      progress slots) is a finite map over its own string keys.  A read
      [obj[k]] of the code also finds the members inherited from
      [Object.prototype] ([JsObject.prototype_names]).  The guard of
      [setActiveProfile] is modelled with them; the other functions of
      [js/profile.js] and [js/progress.js] hand what they find to
      [Object.assign] or return it, and are modelled for keys that name
      no inherited member ([JsObject.plain]): the theorems about them
      carry that hypothesis.
    - A JS [Map] keeps insertion order, so it is an association list.
      [Object.values] of a dictionary is given up to order.
    - Numbers stored in progress records are integers ([Z]); doubles
      agree with them from [-2^53] to [2^53] ([JsNumber.exact]), and the
      theorems that add or multiply state that range.
    - An [async] function is a state transformer over the backing store
      that ends in a completion: it resolves with a value or rejects with
      an exception.  Every operation of a store is run to its end before
      the next one starts (each call is awaited).
    - The storage adapter is the one the module installs,
      [LocalStorageAdapter]; nothing in the repository replaces it.
    - Clock and random source are inputs of the operations that read them. *)

From Stdlib Require Import ZArith NArith List Lia.
From stdpp Require Import base option list strings gmap fin_maps.

Import ListNotations.
Local Open Scope string_scope.
Local Open Scope list_scope.

(* ===================================================================== *)
(** ** Completions and the monad of asynchronous operations *)
(* ===================================================================== *)

Inductive exn : Type :=
| QuotaExceededError
| Error (message : string).

Inductive completion (A : Type) : Type :=
| Normal (a : A)
| Throw (e : exn).
Arguments Normal {A} a.
Arguments Throw {A} e.

Definition is_normal {A} (c : completion A) : bool :=
  match c with Normal _ => true | Throw _ => false end.

(** [M S A]: a computation over a store [S] that returns an [A] or throws. *)
Definition M (S A : Type) : Type := S -> completion A * S.

Definition ret {S A} (a : A) : M S A := fun s => (Normal a, s).

Definition throw {S A} (e : exn) : M S A := fun s => (Throw e, s).

Definition bind {S A B} (m : M S A) (k : A -> M S B) : M S B :=
  fun s =>
    match m s with
    | (Normal a, s') => k a s'
    | (Throw e, s') => (Throw e, s')
    end.

Definition try_catch {S A} (body : M S A) (handler : exn -> M S A) : M S A :=
  fun s =>
    match body s with
    | (Normal a, s') => (Normal a, s')
    | (Throw e, s') => handler e s'
    end.

Notation "x <- m ;; k" := (bind m (fun x => k))
  (at level 100, m at next level, right associativity).
Notation "m ;;; k" := (bind m (fun _ => k))
  (at level 100, right associativity).

(** Truthiness of the JS values the guards test. *)
Definition truthy_string (s : string) : bool :=
  match s with EmptyString => false | String _ _ => true end.

Definition truthy_opt_string (o : option string) : bool :=
  match o with None => false | Some s => truthy_string s end.

(* ===================================================================== *)
(** ** Plain objects and numbers *)
(* ===================================================================== *)

Module JsObject.

(** The members every plain object inherits from [Object.prototype].
    A read [obj[k]] gives the own property [k] of [obj] and, when
    there is none, the inherited member of that name: a function, or
    [Object.prototype] itself for ["__proto__"], all of them truthy. *)
Definition prototype_names : list string :=
  [ "constructor"; "hasOwnProperty"; "isPrototypeOf"; "propertyIsEnumerable";
    "toLocaleString"; "toString"; "valueOf"; "__proto__";
    "__defineGetter__"; "__defineSetter__";
    "__lookupGetter__"; "__lookupSetter__" ].

Definition inherited (k : string) : bool :=
  bool_decide (k ∈ prototype_names).

(** A key that names no inherited member: [obj[k]] is then the own
    property or [undefined], as the lookup of a finite map. *)
Definition plain (k : string) : Prop := k ∉ prototype_names.

End JsObject.

(** Closes a goal [JsObject.plain k] for a literal [k]. *)
Ltac solve_plain :=
  unfold JsObject.plain; apply (bool_decide_unpack _); vm_compute; exact I.

Module JsNumber.

(** The integers on which doubles are exact and consecutive: a sum or
    product of integers that stays in this range, operands included, is
    the one of [Z]. *)
Definition exact (n : Z) : Prop := (- 2 ^ 53 ≤ n ≤ 2 ^ 53)%Z.

End JsNumber.

(* ===================================================================== *)
(** ** js/storage.js *)
(* ===================================================================== *)

Module Storage.

Definition PREFIX : string := "amaragame_".

Section Adapter.
Context {D : Type}.

(** What the page finds when it uses [localStorage]. *)
Inductive condition : Type :=
| Open     (* reads and writes go through *)
| Full     (* the quota is used up: [setItem] throws, the rest works *)
| Denied.  (* storage is blocked for the page: every use of
              [localStorage] throws *)

(** [localStorage], restricted to the documents of one shape.  The
    serialised text is identified with the document it encodes. *)
Record backend : Type := mkBackend {
  items : gmap string D;
  state : condition
}.

(** Whether [setItem] finds room (otherwise it throws). *)
Definition writable (ls : backend) : bool :=
  match state ls with Open => true | Full | Denied => false end.

(** Whether [localStorage] can be used at all. *)
Definition reachable (ls : backend) : bool :=
  match state ls with Open | Full => true | Denied => false end.

Definition setItem (k : string) (d : D) : M backend unit :=
  fun ls =>
    if writable ls
    then (Normal tt, {| items := <[k := d]> (items ls); state := state ls |})
    else (Throw (if reachable ls then QuotaExceededError else Error "SecurityError"),
          ls).

Definition getItem (k : string) : M backend (option D) :=
  fun ls =>
    if reachable ls
    then (Normal (items ls !! k), ls)
    else (Throw (Error "SecurityError"), ls).

Definition removeItem (k : string) : M backend unit :=
  fun ls =>
    if reachable ls
    then (Normal tt, {| items := delete k (items ls); state := state ls |})
    else (Throw (Error "SecurityError"), ls).

(** class LocalStorageAdapter *)
Definition save (key : string) (data : D) : M backend bool :=
  try_catch
    (setItem (PREFIX +:+ key) data ;;; ret true)
    (fun _ => ret false).

Definition load (key : string) : M backend (option D) :=
  try_catch
    (raw <- getItem (PREFIX +:+ key) ;; ret raw)
    (fun _ => ret None).

Definition remove (key : string) : M backend bool :=
  try_catch
    (removeItem (PREFIX +:+ key) ;;; ret true)
    (fun _ => ret false).

(** What a raw read of the store shows under [key]: nothing when the
    storage cannot be reached. *)
Definition raw (key : string) (ls : backend) : option D :=
  if reachable ls then items ls !! (PREFIX +:+ key) else None.

End Adapter.
Arguments backend D : clear implicits.

End Storage.

(* ===================================================================== *)
(** ** js/profile.js *)
(* ===================================================================== *)

Module ProfileManager.

Record Profile : Type := mkProfile {
  p_id : string;
  p_name : string;
  p_avatar : string;
  p_createdAt : string
}.

(** The document stored under key "profiles". *)
Record Data : Type := mkData {
  version : Z;
  active : option string;
  profiles : gmap string Profile
}.

Definition store : Type := Storage.backend Data.

Definition KEY : string := "profiles".

(** What the clock and the random source give to one [createProfile]:
    [Date.now()], [Math.random().toString(36).slice(2, 7)] and
    [new Date().toISOString()]. *)
Record Env : Type := mkEnv {
  date_now : N;
  random_tail : string;
  iso_now : string
}.

Definition digit36 (d : N) : Ascii.ascii :=
  if (d <? 10)%N
  then Ascii.ascii_of_N (48 + d)
  else Ascii.ascii_of_N (87 + d).

Fixpoint toString36_aux (fuel : nat) (n : N) (acc : string) : string :=
  match fuel with
  | O => acc
  | S fuel' =>
      let acc' := String (digit36 (n mod 36)) acc in
      if (n / 36 =? 0)%N then acc' else toString36_aux fuel' (n / 36) acc'
  end.

(** [Number.prototype.toString(36)] on a non-negative integer. *)
Definition toString36 (n : N) : string :=
  toString36_aux (S (N.size_nat n)) n "".

Definition generateId (e : Env) : string :=
  "p_" +:+ toString36 (date_now e) +:+ random_tail e.

Definition empty_data : Data :=
  {| version := 1; active := None; profiles := ∅ |}.

Definition loadData : M store Data :=
  d <- Storage.load KEY ;; ret (default empty_data d).

Definition saveData (data : Data) : M store unit :=
  Storage.save KEY data ;;; ret tt.

(** The document the store holds, as [loadData] reads it. *)
Definition stored (st : store) : Data :=
  default empty_data (Storage.raw KEY st).

(** Modelled for an active pointer that is a plain key (or the key of
    a stored profile); for a pointer that names an inherited member
    the code returns that member. *)
Definition getActiveProfile : M store (option Profile) :=
  data <- loadData ;;
  match active data with
  | Some a =>
      if truthy_string a
      then ret (profiles data !! a)
      else ret None
  | None => ret None
  end.

(** [avatar] is [None] when the caller leaves the argument out. *)
Definition createProfile (name : string) (avatar : option string) (e : Env)
  : M store Profile :=
  let avatar := default "🦄" avatar in
  data <- loadData ;;
  let id := generateId e in
  let profile :=
    {| p_id := id; p_name := name; p_avatar := avatar; p_createdAt := iso_now e |} in
  let data :=
    {| version := version data;
       active := Some id;
       profiles := <[id := profile]> (profiles data) |} in
  saveData data ;;;
  ret profile.

(** [Object.values(data.profiles)], up to the order of the listing
    (the code lists in insertion order). *)
Definition getAllProfiles : M store (list Profile) :=
  data <- loadData ;;
  ret ((map_to_list (profiles data)).*2).

(** The guard [data.profiles[id]] is truthy for a stored profile and
    for a name inherited from [Object.prototype]. *)
Definition setActiveProfile (id : string) : M store bool :=
  data <- loadData ;;
  if bool_decide (is_Some (profiles data !! id)) || JsObject.inherited id
  then
    let data :=
      {| version := version data; active := Some id; profiles := profiles data |} in
    saveData data ;;;
    ret true
  else ret false.

(** The [updates] argument of [updateProfile]: every field may be
    given or left out. *)
Record Updates : Type := mkUpdates {
  u_id : option string;
  u_name : option string;
  u_avatar : option string;
  u_createdAt : option string
}.

(** [Object.assign(profile, updates)] *)
Definition assign (p : Profile) (u : Updates) : Profile :=
  {| p_id := default (p_id p) (u_id u);
     p_name := default (p_name p) (u_name u);
     p_avatar := default (p_avatar p) (u_avatar u);
     p_createdAt := default (p_createdAt p) (u_createdAt u) |}.

(** Modelled for the key of a stored profile and for plain keys.  For
    any other name inherited from [Object.prototype] the guard passes
    as well and [Object.assign] is given the inherited member: it
    throws [TypeError] when it writes [name] to a built-in function and
    changes the built-in object otherwise. *)
Definition updateProfile (id : string) (updates : Updates) : M store (option Profile) :=
  data <- loadData ;;
  match profiles data !! id with
  | Some p =>
      let p' := assign p updates in
      let data :=
        {| version := version data;
           active := active data;
           profiles := <[id := p']> (profiles data) |} in
      saveData data ;;;
      ret (Some p')
  | None => ret None
  end.

(** Calls that change the profile store. *)
Inductive op : Type :=
| CreateProfile (name : string) (avatar : option string) (e : Env)
| SetActiveProfile (id : string)
| UpdateProfile (id : string) (updates : Updates).

Definition perform (o : op) (st : store) : store :=
  match o with
  | CreateProfile name avatar e => snd (createProfile name avatar e st)
  | SetActiveProfile id => snd (setActiveProfile id st)
  | UpdateProfile id updates => snd (updateProfile id updates st)
  end.

(** The store after a sequence of calls, each awaited. *)
Definition run (ops : list op) (st : store) : store :=
  foldl (fun st o => perform o st) st ops.

(** Every profile is stored under its own id. *)
Definition keyed_by_id (data : Data) : Prop :=
  ∀ k p, profiles data !! k = Some p → p_id p = k.

(** A call whose id argument names no member of [Object.prototype]. *)
Definition plain_call (o : op) : Prop :=
  match o with
  | CreateProfile _ _ _ => True
  | SetActiveProfile id => JsObject.plain id
  | UpdateProfile id _ => JsObject.plain id
  end.

(** A call that leaves the id of a profile alone: [updates] has no
    [id], or the id the profile is stored under. *)
Definition keeps_id (o : op) : Prop :=
  match o with
  | UpdateProfile id updates => u_id updates = None ∨ u_id updates = Some id
  | _ => True
  end.

(** No profile is stored under the empty key, and the active pointer,
    when it is set, names a stored profile. *)
Definition pointer_ok (data : Data) : Prop :=
  profiles data !! "" = None
  ∧ ∀ a, active data = Some a → is_Some (profiles data !! a).

End ProfileManager.

(* ===================================================================== *)
(** ** js/progress.js *)
(* ===================================================================== *)

(** JSON values, for the [custom] payload a game owns. *)
#[local] Unset Elimination Schemes.
Inductive json : Type :=
| JNull
| JBool (b : bool)
| JNum (z : Z)
| JStr (s : string)
| JArr (elems : list json)
| JObj (fields : list (string * json)).
#[local] Set Elimination Schemes.

Module ProgressManager.

Record ProgressRecord : Type := mkRecord {
  sessionsPlayed : Z;
  currentLevel : Z;
  bestLevel : Z;
  lastPlayed : option string;
  custom : json
}.

(** The document stored under key "progress". *)
Record Data : Type := mkData {
  version : Z;
  profiles : gmap string (gmap string ProgressRecord)
}.

Definition store : Type := Storage.backend Data.

Definition KEY : string := "progress".

Definition makeDefault : ProgressRecord :=
  {| sessionsPlayed := 0;
     currentLevel := 1;
     bestLevel := 1;
     lastPlayed := None;
     custom := JObj [] |}.

Definition empty_data : Data :=
  {| version := 1; profiles := ∅ |}.

Definition loadData : M store Data :=
  d <- Storage.load KEY ;; ret (default empty_data d).

Definition saveData (data : Data) : M store unit :=
  Storage.save KEY data ;;; ret tt.

(** The document the store holds, as [loadData] reads it. *)
Definition stored (st : store) : Data :=
  default empty_data (Storage.raw KEY st).

(** [data.profiles?.[profileId]?.[gameId]], for plain keys (for the
    names inherited from [Object.prototype] the code finds the
    inherited member or one of its properties). *)
Definition lookup_record (data : Data) (profileId gameId : string)
  : option ProgressRecord :=
  slot ← profiles data !! profileId; slot !! gameId.

(** Modelled for plain keys, as [lookup_record]. *)
Definition getGameProgress (profileId gameId : string) : M store ProgressRecord :=
  data <- loadData ;;
  ret (default makeDefault (lookup_record data profileId gameId)).

(** The [updates] argument of [updateGameProgress]. *)
Record Updates : Type := mkUpdates {
  u_sessionsPlayed : option Z;
  u_currentLevel : option Z;
  u_bestLevel : option Z;
  u_lastPlayed : option (option string);
  u_custom : option json
}.

(** A whole record passed as [updates]: every field is given. *)
Definition all_fields (r : ProgressRecord) : Updates :=
  {| u_sessionsPlayed := Some (sessionsPlayed r);
     u_currentLevel := Some (currentLevel r);
     u_bestLevel := Some (bestLevel r);
     u_lastPlayed := Some (lastPlayed r);
     u_custom := Some (custom r) |}.

(** [Object.assign(record, updates)] *)
Definition assign (r : ProgressRecord) (u : Updates) : ProgressRecord :=
  {| sessionsPlayed := default (sessionsPlayed r) (u_sessionsPlayed u);
     currentLevel := default (currentLevel r) (u_currentLevel u);
     bestLevel := default (bestLevel r) (u_bestLevel u);
     lastPlayed := default (lastPlayed r) (u_lastPlayed u);
     custom := default (custom r) (u_custom u) |}.

Definition set_lastPlayed (r : ProgressRecord) (t : option string) : ProgressRecord :=
  {| sessionsPlayed := sessionsPlayed r;
     currentLevel := currentLevel r;
     bestLevel := bestLevel r;
     lastPlayed := t;
     custom := custom r |}.

(** [now] is [new Date().toISOString()] at the time of the call.
    Modelled for plain keys: for a name inherited from
    [Object.prototype] the guards [!data.profiles[profileId]] and
    [!data.profiles[profileId][gameId]] find the inherited member and
    the writes go to a built-in object, not to the document. *)
Definition updateGameProgress (profileId gameId : string) (updates : Updates)
    (now : string) : M store ProgressRecord :=
  data <- loadData ;;
  let slot := default ∅ (profiles data !! profileId) in
  let record := default makeDefault (slot !! gameId) in
  let record := set_lastPlayed (assign record updates) (Some now) in
  let data :=
    {| version := version data;
       profiles := <[profileId := <[gameId := record]> slot]> (profiles data) |} in
  saveData data ;;;
  ret record.

(** Modelled for plain keys and for a count of sessions in the range
    of [JsNumber.exact], where [sessionsPlayed++] adds one. *)
Definition recordSession (profileId gameId : string) (level : Z)
    (now : string) : M store ProgressRecord :=
  progress <- getGameProgress profileId gameId ;;
  let progress :=
    {| sessionsPlayed := sessionsPlayed progress + 1;
       currentLevel := level;
       bestLevel := if (level >? bestLevel progress)%Z then level else bestLevel progress;
       lastPlayed := lastPlayed progress;
       custom := custom progress |} in
  updateGameProgress profileId gameId (all_fields progress) now.

(** [data.profiles?.[profileId] || {}], for a plain key. *)
Definition getAllProgress (profileId : string) : M store (gmap string ProgressRecord) :=
  data <- loadData ;;
  ret (default ∅ (profiles data !! profileId)).

(** Sessions recorded one after the other, each awaited; a session is
    its level and the time of its write. *)
Definition recordSessions (profileId gameId : string) (sessions : list (Z * string))
    (st : store) : store :=
  foldl (fun st s => snd (recordSession profileId gameId s.1 s.2 st)) st sessions.

End ProgressManager.

(* ===================================================================== *)
(** ** JS [Map]: insertion-ordered, keyed by string *)
(* ===================================================================== *)

Module JsMap.
Section JsMap.
Context {V : Type}.

Definition t : Type := list (string * V).

(** [m.set(k, v)]: an existing key keeps its place, a new one goes last. *)
Fixpoint set (k : string) (v : V) (m : t) : t :=
  match m with
  | [] => [(k, v)]
  | (k', v') :: m' =>
      if decide (k' = k) then (k, v) :: m' else (k', v') :: set k v m'
  end.

Fixpoint get (k : string) (m : t) : option V :=
  match m with
  | [] => None
  | (k', v') :: m' => if decide (k' = k) then Some v' else get k m'
  end.

Definition keys (m : t) : list string := m.*1.
Definition values (m : t) : list V := m.*2.

End JsMap.
Arguments t V : clear implicits.
End JsMap.

(* ===================================================================== *)
(** ** js/registry.js *)
(* ===================================================================== *)

Module GameRegistry.

Record Category : Type := mkCategory {
  cat_id : string;
  label : string;
  icon : string;
  color : string
}.

(** A function object held in a config, known by its identity. *)
Definition fnref : Type := N.

(** A game config as handed to [register]; [None] is a member that is
    not there. *)
Record GameConfig : Type := mkConfig {
  id : option string;
  title : string;
  category : string;
  thumbnail : string;
  description : string;
  ageRange : Z * Z;
  init : option fnref;
  destroy : option fnref
}.

Record Registry : Type := mkRegistry {
  categories : JsMap.t Category;
  games : JsMap.t GameConfig
}.

Definition initial : Registry :=
  {| categories :=
       [ ("counting", mkCategory "counting" "Counting" "🔢" "#FF9F43");
         ("reading",  mkCategory "reading"  "Reading"  "📖" "#54A0FF");
         ("thinking", mkCategory "thinking" "Thinking" "🧩" "#5F27CD");
         ("feelings", mkCategory "feelings" "Feelings" "💛" "#FF6B6B") ];
     games := [] |}.

(** A function member is truthy exactly when it is there. *)
Definition truthy_fn (f : option fnref) : bool :=
  match f with Some _ => true | None => false end.

(** The guard of [register]: [!config.id || !config.init || !config.destroy]. *)
Definition rejected (config : GameConfig) : bool :=
  negb (truthy_opt_string (id config))
  || negb (truthy_fn (init config))
  || negb (truthy_fn (destroy config)).

Definition show_id (o : option string) : string :=
  match o with None => "undefined" | Some s => s end.

Definition register (config : GameConfig) : M Registry unit :=
  if rejected config
  then throw (Error ("Game registration requires id, init, destroy. Got: "
                       +:+ show_id (id config)))
  else fun R =>
    (Normal tt,
     {| categories := categories R;
        games := JsMap.set (default "" (id config)) config (games R) |}).

Definition get (gid : string) (R : Registry) : option GameConfig :=
  JsMap.get gid (games R).

Definition getAll (R : Registry) : list GameConfig :=
  JsMap.values (games R).

Definition getByCategory (categoryId : string) (R : Registry) : list GameConfig :=
  filter (fun g => category g = categoryId) (getAll R).

Definition getCategories (R : Registry) : list Category :=
  filter (fun cat => (0 < length (getByCategory (cat_id cat) R))%nat)
         (JsMap.values (categories R)).

Definition getCategoryInfo (cid : string) (R : Registry) : option Category :=
  JsMap.get cid (categories R).

Definition addCategory (cid label icon color : string) : M Registry unit :=
  fun R =>
    (Normal tt,
     {| categories := JsMap.set cid (mkCategory cid label icon color) (categories R);
        games := games R |}).

#[global] Instance GameConfig_eq_dec : EqDecision GameConfig.
Proof. solve_decision. Defined.

(** Calls that change the registry, as the modules make them while
    they are loaded. *)
Inductive call : Type :=
| Register (config : GameConfig)
| AddCategory (cid label icon color : string).

Definition perform (c : call) : M Registry unit :=
  match c with
  | Register config => register config
  | AddCategory cid label icon color => addCategory cid label icon color
  end.

(** The registry after a sequence of calls (a call that throws leaves
    the registry as it was). *)
Definition run (cs : list call) (R : Registry) : Registry :=
  foldl (fun R c => snd (perform c R)) R cs.

(** The category ids a sequence of calls registers, in call order. *)
Definition added_categories (cs : list call) : list string :=
  omap (fun c => match c with
                 | AddCategory cid _ _ _ => Some cid
                 | Register _ => None
                 end) cs.

(** The game ids a sequence of calls registers with success. *)
Definition registered_games (cs : list call) : list string :=
  omap (fun c => match c with
                 | Register config => if rejected config then None else id config
                 | AddCategory _ _ _ _ => None
                 end) cs.

(** Every category is stored under its own id. *)
Definition keyed_by_id (m : JsMap.t Category) : Prop :=
  Forall (fun kc => cat_id kc.2 = kc.1) m.

(** Order of first registration: every id once, at the place of its
    first occurrence. *)
Fixpoint first_registrations (ids : list string) : list string :=
  match ids with
  | [] => []
  | i :: ids' => i :: filter (fun j => j ≠ i) (first_registrations ids')
  end.

(** The config a sequence of calls leaves under a game id: the last
    one that [register] accepted under that id. *)
Definition last_registered (gid : string) (cs : list call) : option GameConfig :=
  last (omap (fun c => match c with
                       | Register config =>
                           if rejected config then None
                           else if decide (id config = Some gid)
                                then Some config else None
                       | AddCategory _ _ _ _ => None
                       end) cs).

(** A game entry is stored under the id of its config, and the config
    has passed the guard of [register]. *)
Definition entry_ok (kg : string * GameConfig) : Prop :=
  id kg.2 = Some kg.1 ∧ rejected kg.2 = false.

(** Does a game of this category exist? *)
Definition populated (categoryId : string) (R : Registry) : Prop :=
  ∃ g, g ∈ getAll R ∧ category g = categoryId.

End GameRegistry.

(* ===================================================================== *)
(** ** js/app.js: screen transitions *)
(* ===================================================================== *)

Module App.

(** The controller runs on one event queue.  [showScreen] does its
    teardown at once and leaves the rendering to a timer of 200 ms, so a
    transition is two steps of the model: the call, and later the timer.
    All timers have the same delay and fire in the order they were set.
    The [await]s of [renderMenu] and [launchGame] wait on the storage
    adapter only, which settles without giving way to a timer or to
    another handler, so each call is one step up to the point where its
    timer is set. *)

(** The closure handed to [showScreen], with what it has captured. *)
Inductive RenderFn : Type :=
| RenderWelcome
| RenderMenu (profile : ProfileManager.Profile) (cats : list GameRegistry.Category)
| RenderCategory (catInfo : option GameRegistry.Category)
                 (gameList : list GameRegistry.GameConfig)
| RenderGame (game : GameRegistry.GameConfig) (gameId : string)
             (profile : option ProfileManager.Profile).

(** Calls the controller makes into game modules. *)
Inductive Call : Type :=
| Init (game : GameRegistry.GameConfig)
| Destroy (game : GameRegistry.GameConfig).

Record World : Type := mkWorld {
  registry : GameRegistry.Registry;
  profileStore : ProfileManager.store;
  activeGame : option GameRegistry.GameConfig;
  (** callbacks given to [setTimeout(_, 200)] that have not run yet,
      oldest first *)
  timers : list RenderFn;
  (** what [app] shows: the last render function that ran *)
  screen : option RenderFn;
  (** every [init] and [destroy] call made so far, oldest first *)
  calls : list Call
}.

Definition set_activeGame (g : option GameRegistry.GameConfig) (w : World) : World :=
  {| registry := registry w; profileStore := profileStore w; activeGame := g;
     timers := timers w; screen := screen w; calls := calls w |}.

Definition set_timers (t : list RenderFn) (w : World) : World :=
  {| registry := registry w; profileStore := profileStore w; activeGame := activeGame w;
     timers := t; screen := screen w; calls := calls w |}.

Definition set_screen (s : option RenderFn) (w : World) : World :=
  {| registry := registry w; profileStore := profileStore w; activeGame := activeGame w;
     timers := timers w; screen := s; calls := calls w |}.

Definition log (c : Call) (w : World) : World :=
  {| registry := registry w; profileStore := profileStore w; activeGame := activeGame w;
     timers := timers w; screen := screen w; calls := calls w ++ [c] |}.

(** Run an operation of the profile store inside the world. *)
Definition withProfiles {A} (m : M ProfileManager.store A) : M World A :=
  fun w =>
    let '(r, st) := m (profileStore w) in
    (r, {| registry := registry w; profileStore := st; activeGame := activeGame w;
           timers := timers w; screen := screen w; calls := calls w |}).

(** The synchronous part of [showScreen]: tear down, then hand the
    rendering to [setTimeout]. *)
Definition showScreen (renderFn : RenderFn) : M World unit :=
  fun w =>
    let w :=
      match activeGame w with
      | Some g => set_activeGame None (log (Destroy g) w)
      | None => w
      end in
    (Normal tt, set_timers (timers w ++ [renderFn]) w).

(** What a render function does when its timer fires, after
    [app.innerHTML = ''].  Only the game screen touches [activeGame]. *)
Definition render (renderFn : RenderFn) (w : World) : World :=
  let w := set_screen (Some renderFn) w in
  match renderFn with
  | RenderGame game _ _ => log (Init game) (set_activeGame (Some game) w)
  | _ => w
  end.

(** The oldest pending timer fires. *)
Definition timerFires (w : World) : World :=
  match timers w with
  | [] => w
  | renderFn :: rest => render renderFn (set_timers rest w)
  end.

Definition renderWelcome : M World unit :=
  showScreen RenderWelcome.

Definition renderMenu : M World unit :=
  profile <- withProfiles ProfileManager.getActiveProfile ;;
  match profile with
  | None => renderWelcome
  | Some profile =>
      cats <- (fun w => (Normal (GameRegistry.getCategories (registry w)), w)) ;;
      showScreen (RenderMenu profile cats)
  end.

Definition renderCategory (categoryId : string) : M World unit :=
  catInfo <- (fun w => (Normal (GameRegistry.getCategoryInfo categoryId (registry w)), w)) ;;
  gameList <- (fun w => (Normal (GameRegistry.getByCategory categoryId (registry w)), w)) ;;
  showScreen (RenderCategory catInfo gameList).

Definition launchGame (gameId : string) : M World unit :=
  game <- (fun w => (Normal (GameRegistry.get gameId (registry w)), w)) ;;
  match game with
  | None => ret tt
  | Some game =>
      profile <- withProfiles ProfileManager.getActiveProfile ;;
      showScreen (RenderGame game gameId profile)
  end.

Definition init : M World unit :=
  profile <- withProfiles ProfileManager.getActiveProfile ;;
  match profile with
  | Some _ => renderMenu
  | None => renderWelcome
  end.

(** What can happen next: a handler calls one of the transition
    functions ([onExit] is [renderMenu]), or a timer fires. *)
Inductive event : Type :=
| CallRenderWelcome
| CallRenderMenu
| CallRenderCategory (categoryId : string)
| CallLaunchGame (gameId : string)
| TimerFires.

Definition step (e : event) (w : World) : World :=
  match e with
  | CallRenderWelcome => snd (renderWelcome w)
  | CallRenderMenu => snd (renderMenu w)
  | CallRenderCategory c => snd (renderCategory c w)
  | CallLaunchGame g => snd (launchGame g w)
  | TimerFires => timerFires w
  end.

Definition run (es : list event) (w : World) : World :=
  foldl (fun w e => step e w) w es.

(** The modules that are mounted after a sequence of calls: [init]
    mounts one, [destroy] unmounts it. *)
Fixpoint remove_first (g : GameRegistry.GameConfig) (l : list GameRegistry.GameConfig)
  : list GameRegistry.GameConfig :=
  match l with
  | [] => []
  | g' :: l' => if decide (g' = g) then l' else g' :: remove_first g l'
  end.

Definition mounted (cs : list Call) : list GameRegistry.GameConfig :=
  foldl (fun acc c =>
           match c with
           | Init g => acc ++ [g]
           | Destroy g => remove_first g acc
           end) [] cs.

(** The module the controller holds a reference to, as a list. *)
Definition held (w : World) : list GameRegistry.GameConfig :=
  match activeGame w with
  | Some g => [g]
  | None => []
  end.

(** A transition that is left to finish: the call, then its timer. *)
Definition settled (e : event) : list event := [e; TimerFires].


(** The characters an id is made of by [generateId]; a string of them
    put into [data-id="${p.id}"] unescaped reads back from
    [item.dataset.id] as it was written. *)
Definition id_char (c : Ascii.ascii) : bool :=
  let n := Ascii.nat_of_ascii c in
  ((48 <=? n) && (n <=? 57) || (65 <=? n) && (n <=? 90)
   || (97 <=? n) && (n <=? 122) || (n =? 95) || (n =? 45))%nat.

Fixpoint attr_safe (s : string) : bool :=
  match s with
  | EmptyString => true
  | String c s' => id_char c && attr_safe s'
  end.

(** The click handler of an entry of the profile switcher; [id] is
    [item.dataset.id], which the entry of profile [p] got from
    [data-id="${p.id}"]. *)
Definition onProfileItemClick (id : string) : M World unit :=
  withProfiles (ProfileManager.setActiveProfile id) ;;;
  renderMenu.

(** No call to [destroy] goes to a module that is not mounted at that
    time. *)
Fixpoint destroys_mounted_from (acc : list GameRegistry.GameConfig) (cs : list Call)
  : Prop :=
  match cs with
  | [] => True
  | Init g :: cs' => destroys_mounted_from (acc ++ [g]) cs'
  | Destroy g :: cs' => g ∈ acc ∧ destroys_mounted_from (remove_first g acc) cs'
  end.

Definition destroys_mounted (cs : list Call) : Prop :=
  destroys_mounted_from [] cs.

End App.

(* ===================================================================== *)
(** ** js/games: the helpers that decide what a game asks and stores *)
(* ===================================================================== *)

Module Games.

(** *** [shuffle] and [pick] (mood-garden.js, puzzle-garden.js,
    shape-builder.js)

    [draw i] stands for the value of [Math.floor(Math.random() * (i + 1))]
    in the iteration of index [i]; it is at most [i]. *)

Section Shuffle.
Context {A : Type}.

(** [[a[i], a[j]] = [a[j], a[i]]] *)
Definition swap (a : list A) (i j : nat) : list A :=
  match a !! i, a !! j with
  | Some x, Some y => <[j := x]> (<[i := y]> a)
  | _, _ => a
  end.

(** The loop [for (let i = ...; i > 0; i--)], entered at index [i]. *)
Fixpoint shuffle_from (i : nat) (draw : nat -> nat) (a : list A) : list A :=
  match i with
  | O => a
  | S i' => shuffle_from i' draw (swap a i (draw i))
  end.

Definition shuffle (draw : nat -> nat) (arr : list A) : list A :=
  shuffle_from (length arr - 1) draw arr.

End Shuffle.

(** The draws [Math.random] can give. *)
Definition in_range (draw : nat -> nat) : Prop := ∀ i, (draw i ≤ i)%nat.

(** [arr.map((_, i) => i)] *)
Definition indices {A} (arr : list A) : list nat := seq 0 (length arr).

(** *** shape-builder.js *)

Module ShapeBuilder.

(** [Object.keys(SHAPE_SVG)] *)
Definition ALL_SHAPES : list string :=
  ["circle"; "oval"; "square"; "rectangle"; "triangle";
   "diamond"; "star"; "hexagon"; "heart"; "pentagon"].

(** [slice(0, 2)] is [take 2]. *)
Definition buildChoices (shapeName : string) (draw1 draw2 : nat -> nat)
  : list string :=
  let wrongs :=
    take 2 (shuffle draw1 (filter (fun s => s ≠ shapeName) ALL_SHAPES)) in
  shuffle draw2 (shapeName :: wrongs).

End ShapeBuilder.

(** *** number-hop.js *)

Module NumberHop.

(** The sums and products are those of doubles: they are the ones of
    [Z] as long as they stay in the range of [JsNumber.exact]. *)
Definition generateSequence (step level : Z) : list Z :=
  let start := (step * ((level - 1) * 5 + 1))%Z in
  (fun i => (start + step * i)%Z) <$> seqZ 0 5.

End NumberHop.

(** *** feed-monster.js *)

Module FeedMonster.

Record LevelConfig : Type := mkLevel {
  lv_min : Z;
  lv_max : Z;
  lv_extra : Z
}.

Definition LEVELS : list LevelConfig :=
  [ mkLevel 1 2 2; mkLevel 2 3 2; mkLevel 3 4 3; mkLevel 4 5 3; mkLevel 5 6 3 ].

(** [LEVELS[Math.min(level - 1, LEVELS.length - 1)]]; an index below
    zero finds nothing. *)
Definition levelConfig (level : Z) : option LevelConfig :=
  let i := Z.min (level - 1) (Z.of_nat (length LEVELS) - 1) in
  if (i <? 0)%Z then None else LEVELS !! Z.to_nat i.

(** [randInt(min, max)], where [d] is the value of
    [Math.floor(Math.random() * (max - min + 1))]. *)
Definition randInt (d min max : Z) : Z := (d + min)%Z.

(** The part of [_state] that the rules of the game read and write. *)
Record State : Type := mkState {
  level : Z;
  roundsInLevel : Z;
  roundsToAdvance : Z;
  target : Z;
  fed : Z;
  celebrating : bool
}.

(** The state [init] builds from the saved progress:
    [progress.currentLevel || 1]. *)
Definition initial (progress : ProgressManager.ProgressRecord) : State :=
  {| level := if (ProgressManager.currentLevel progress =? 0)%Z
              then 1 else ProgressManager.currentLevel progress;
     roundsInLevel := 0;
     roundsToAdvance := 3;
     target := 0;
     fed := 0;
     celebrating := false |}.

(** [_startRound]: the new target and the number of items on the tray;
    nothing when [levelConfig] finds no level (reading [cfg.min] then
    throws). *)
Definition startRound (d : Z) (s : State) : option (State * Z) :=
  match levelConfig (level s) with
  | None => None
  | Some cfg =>
      let target := randInt d (lv_min cfg) (lv_max cfg) in
      Some ({| level := level s; roundsInLevel := roundsInLevel s;
               roundsToAdvance := roundsToAdvance s;
               target := target; fed := 0; celebrating := false |},
            (target + lv_extra cfg)%Z)
  end.

Definition feedMonster (s : State) : State :=
  if celebrating s then s
  else {| level := level s; roundsInLevel := roundsInLevel s;
          roundsToAdvance := roundsToAdvance s;
          target := target s; fed := (fed s + 1)%Z; celebrating := celebrating s |}.


(** What pressing the check button leads to. *)
Inductive verdict : Type :=
| Ignored      (* a celebration is running *)
| Correct
| TooFew
| TooMany.

Definition checkAnswer (s : State) : verdict :=
  if celebrating s then Ignored
  else if (fed s =? target s)%Z then Correct
  else if (fed s <? target s)%Z then TooFew
  else TooMany.


End FeedMonster.

End Games.

(* ===================================================================== *)
(** ** Sample data *)
(* ===================================================================== *)

Module Samples.

(** Two of the placeholder games of [js/games/coming-soon.js]; both
    are listed on the screen of the "reading" category. *)
Definition letterSafari : GameRegistry.GameConfig :=
  {| GameRegistry.id := Some "letter-safari";
     GameRegistry.title := "Letter Safari";
     GameRegistry.category := "reading";
     GameRegistry.thumbnail := "🦁";
     GameRegistry.description := "Hunt for letters in the wild!";
     GameRegistry.ageRange := (4, 8)%Z;
     GameRegistry.init := Some 1%N;
     GameRegistry.destroy := Some 2%N |}.

Definition storyBubbles : GameRegistry.GameConfig :=
  {| GameRegistry.id := Some "story-bubbles";
     GameRegistry.title := "Story Bubbles";
     GameRegistry.category := "reading";
     GameRegistry.thumbnail := "💬";
     GameRegistry.description := "Pop bubbles to build a story!";
     GameRegistry.ageRange := (4, 8)%Z;
     GameRegistry.init := Some 3%N;
     GameRegistry.destroy := Some 4%N |}.

(** A config that lacks [destroy]. *)
Definition noDestroy : GameRegistry.GameConfig :=
  {| GameRegistry.id := Some "letter-safari";
     GameRegistry.title := "Letter Safari";
     GameRegistry.category := "reading";
     GameRegistry.thumbnail := "🦁";
     GameRegistry.description := "Hunt for letters in the wild!";
     GameRegistry.ageRange := (4, 8)%Z;
     GameRegistry.init := Some 1%N;
     GameRegistry.destroy := None |}.

Definition reading : GameRegistry.Category :=
  GameRegistry.mkCategory "reading" "Reading" "📖" "#54A0FF".

Definition startup : list GameRegistry.call :=
  [GameRegistry.Register letterSafari; GameRegistry.Register storyBubbles].

Definition registry : GameRegistry.Registry :=
  GameRegistry.run startup GameRegistry.initial.

Definition mia : ProfileManager.Profile :=
  {| ProfileManager.p_id := "p_lr0fqi80a7f3c";
     ProfileManager.p_name := "Mia";
     ProfileManager.p_avatar := "🐼";
     ProfileManager.p_createdAt := "2024-01-05T09:30:00.000Z" |}.

Definition profilesData : ProfileManager.Data :=
  {| ProfileManager.version := 1;
     ProfileManager.active := Some "p_lr0fqi80a7f3c";
     ProfileManager.profiles := {[ "p_lr0fqi80a7f3c" := mia ]} |}.

(** A store that holds Mia's profile and takes writes. *)
Definition profileStore : ProfileManager.store :=
  {| Storage.items := {[ "amaragame_profiles" := profilesData ]};
     Storage.state := Storage.Open |}.

(** An empty store that takes writes. *)
Definition emptyStore : ProfileManager.store :=
  {| Storage.items := ∅; Storage.state := Storage.Open |}.

(** An empty store whose quota is used up: every [setItem] throws. *)
Definition fullStore : ProfileManager.store :=
  {| Storage.items := ∅; Storage.state := Storage.Full |}.

Definition env : ProfileManager.Env :=
  {| ProfileManager.date_now := 1704447000000;
     ProfileManager.random_tail := "a7f3c";
     ProfileManager.iso_now := "2024-01-05T09:30:00.000Z" |}.

(** An empty progress store that takes writes. *)
Definition progressStore : ProgressManager.store :=
  {| Storage.items := ∅; Storage.state := Storage.Open |}.

(** The controller with the menu of the "reading" category on screen,
    no game running and no timer pending. *)
Definition world : App.World :=
  {| App.registry := registry;
     App.profileStore := profileStore;
     App.activeGame := None;
     App.timers := [];
     App.screen :=
       Some (App.RenderCategory (Some reading) [letterSafari; storyBubbles]);
     App.calls := [] |}.

End Samples.

(** Further sample values: a history of profile calls, a controller
    with a game running, draws of the random source, sessions. *)
Module Scenarios.

Definition rename : ProfileManager.Updates :=
  ProfileManager.mkUpdates None (Some "New") None None.

Definition profileCalls : list ProfileManager.op :=
  [ ProfileManager.CreateProfile "Mia" (Some "🐼") Samples.env;
    ProfileManager.SetActiveProfile "p_lr0fqi80a7f3c";
    ProfileManager.UpdateProfile "p_lr0fqi80a7f3c" rename ].

(** The controller while Letter Safari is running. *)
Definition playing : App.World :=
  {| App.registry := Samples.registry;
     App.profileStore := Samples.profileStore;
     App.activeGame := Some Samples.letterSafari;
     App.timers := [];
     App.screen :=
       Some (App.RenderGame Samples.letterSafari "letter-safari" (Some Samples.mia));
     App.calls := [App.Init Samples.letterSafari] |}.

(** Requests made in a hurry: the second launch comes before the timer
    of the first has fired. *)
Definition hurried : list App.event :=
  [ App.CallLaunchGame "letter-safari"; App.CallLaunchGame "story-bubbles";
    App.TimerFires; App.TimerFires; App.CallRenderMenu ].

Definition patient : list App.event :=
  [ App.CallLaunchGame "letter-safari"; App.CallLaunchGame "story-bubbles";
    App.CallRenderMenu ].

(** Draws in range: position [i] draws [i - 1]. *)
Definition draw (i : nat) : nat := i - 1.

(** Mia's profile in a store whose quota is used up. *)
Definition fullProfileStore : ProfileManager.store :=
  {| Storage.items := {[ "amaragame_profiles" := Samples.profilesData ]};
     Storage.state := Storage.Full |}.

(** An empty progress store whose quota is used up. *)
Definition fullProgressStore : ProgressManager.store :=
  {| Storage.items := ∅; Storage.state := Storage.Full |}.


End Scenarios.

(* ===================================================================== *)
(** * Properties *)
(* ===================================================================== *)

(** ** JS [Map] *)

Section JsMapFacts.
Context {V : Type}.
Implicit Types (m : JsMap.t V) (k : string) (v : V).

Lemma jsmap_get_set_eq m k v : JsMap.get k (JsMap.set k v m) = Some v.
Proof.
  induction m as [|[k' v'] m IH]; simpl.
  - by rewrite decide_True.
  - destruct (decide (k' = k)) as [->|Hne]; simpl.
    + by rewrite decide_True.
    + by rewrite decide_False.
Qed.

Lemma jsmap_get_set_ne m k k' v :
  k ≠ k' → JsMap.get k' (JsMap.set k v m) = JsMap.get k' m.
Proof.
  intros Hne. induction m as [|[k0 v0] m IH]; simpl.
  - by rewrite decide_False.
  - destruct (decide (k0 = k)) as [->|Hk]; simpl.
    + by rewrite !decide_False.
    + by rewrite IH.
Qed.

(** A key already in the map keeps its place; a new key goes last. *)
Lemma jsmap_keys_set m k v :
  JsMap.keys (JsMap.set k v m) =
  if decide (k ∈ JsMap.keys m) then JsMap.keys m else JsMap.keys m ++ [k].
Proof.
  unfold JsMap.keys.
  induction m as [|[k' v'] m IH]; cbn [JsMap.set fmap list_fmap fst].
  - rewrite decide_False; [reflexivity | by intros ?%elem_of_nil].
  - destruct (decide (k' = k)) as [->|Hne]; cbn [fmap list_fmap fst].
    + rewrite decide_True; [reflexivity | by left].
    + rewrite IH.
      destruct (decide (k ∈ m.*1)) as [Hin|Hnin].
      * rewrite decide_True; [reflexivity | by right].
      * rewrite decide_False; [reflexivity |].
        intros [?|?]%elem_of_cons; congruence.
Qed.

Lemma jsmap_get_None m k : k ∉ JsMap.keys m → JsMap.get k m = None.
Proof.
  induction m as [|[k' v'] m IH]; simpl; [done |].
  intros Hnin. rewrite decide_False.
  - apply IH. intros ?. apply Hnin. by right.
  - intros ->. apply Hnin. by left.
Qed.

Lemma jsmap_get_Some_values m k v : JsMap.get k m = Some v → v ∈ JsMap.values m.
Proof.
  induction m as [|[k' v'] m IH]; simpl; [done |].
  destruct (decide (k' = k)).
  - intros [= ->]. by left.
  - intros ?. right. by apply IH.
Qed.

Lemma jsmap_set_values m k v : v ∈ JsMap.values (JsMap.set k v m).
Proof. eapply jsmap_get_Some_values, jsmap_get_set_eq. Qed.

Lemma jsmap_NoDup_set m k v :
  NoDup (JsMap.keys m) → NoDup (JsMap.keys (JsMap.set k v m)).
Proof.
  intros Hnd. rewrite jsmap_keys_set. case_decide; [done |].
  apply NoDup_app. split_and!; [done | | apply NoDup_singleton].
  intros x Hx ->%list_elem_of_singleton. done.
Qed.

End JsMapFacts.

(** ** Game registry *)

Section RegistryFacts.
Import GameRegistry.
Implicit Types (R : Registry) (config g : GameConfig) (c : Category).

Lemma rejected_true_iff config :
  rejected config = true ↔
  id config = None ∨ id config = Some "" ∨ init config = None ∨ destroy config = None.
Proof.
  unfold rejected.
  destruct (id config) as [[|a s]|], (init config), (destroy config);
    simpl; split; intros H; try done; try tauto;
    destruct H as [H|[H|[H|H]]]; done.
Qed.

Lemma rejected_false_iff config :
  rejected config = false ↔
  ∃ i, id config = Some i ∧ i ≠ "" ∧ is_Some (init config) ∧ is_Some (destroy config).
Proof.
  unfold rejected.
  destruct (id config) as [[|a s]|], (init config), (destroy config);
    simpl; split; try done; try (intros (i & [= <-] & ? & [? ?] & [? ?]); done).
  intros _. exists (String a s). eauto.
Qed.

Lemma register_rejected config R :
  rejected config = true →
  ∃ msg, register config R = (Throw (Error msg), R).
Proof. intros H. unfold register. rewrite H. by eexists. Qed.

Lemma register_accepted config R i :
  rejected config = false → id config = Some i →
  register config R =
    (Normal tt, {| categories := categories R;
                   games := JsMap.set i config (games R) |}).
Proof. intros H Hi. unfold register. rewrite H, Hi. done. Qed.

Lemma register_categories config R :
  categories (snd (register config R)) = categories R.
Proof. unfold register, throw. by destruct (rejected config). Qed.

Lemma elem_of_getCategories R c :
  c ∈ getCategories R ↔
  c ∈ JsMap.values (categories R) ∧ ∃ g, g ∈ getAll R ∧ category g = cat_id c.
Proof.
  unfold getCategories. rewrite list_elem_of_filter.
  split; intros [H1 H2]; split; try done.
  - destruct (getByCategory (cat_id c) R) as [|g l] eqn:E; [simpl in H1; lia |].
    assert (g ∈ getByCategory (cat_id c) R) as Hin by (rewrite E; by left).
    apply list_elem_of_filter in Hin as [? ?]. by exists g.
  - destruct H2 as (g & Hg & Hc).
    assert (g ∈ getByCategory (cat_id c) R) as Hin
      by (by apply list_elem_of_filter).
    destruct (getByCategory (cat_id c) R); [by apply elem_of_nil in Hin | simpl; lia].
Qed.

(** *** Order of first registration *)

Lemma elem_of_first_registrations ids x :
  x ∈ first_registrations ids ↔ x ∈ ids.
Proof.
  induction ids as [|i ids IH]; cbn [first_registrations]; [done |].
  rewrite !elem_of_cons, list_elem_of_filter, IH.
  destruct (decide (x = i)); tauto.
Qed.

Lemma first_registrations_snoc ids x :
  first_registrations (ids ++ [x]) =
  if decide (x ∈ ids) then first_registrations ids else first_registrations ids ++ [x].
Proof.
  induction ids as [|i ids IH]; cbn [first_registrations app].
  - rewrite filter_nil, decide_False; [done | by intros ?%elem_of_nil].
  - rewrite IH. destruct (decide (x ∈ ids)) as [Hin|Hnin].
    + rewrite decide_True; [done | by right].
    + rewrite filter_app. destruct (decide (x = i)) as [->|Hne].
      * rewrite decide_True by (by left).
        rewrite filter_cons_False by (intros Hx; by apply Hx).
        by rewrite filter_nil, app_nil_r.
      * rewrite decide_False by (intros [?|?]%elem_of_cons; done).
        by rewrite filter_cons_True, filter_nil.
Qed.

Lemma NoDup_first_registrations ids : NoDup (first_registrations ids).
Proof.
  induction ids as [|i ids IH]; simpl; [constructor |].
  constructor.
  - rewrite list_elem_of_filter. intros [Hne _]. by apply Hne.
  - by apply NoDup_filter.
Qed.

Lemma filter_other_id (i : string) (ids : list string) :
  i ∉ ids → filter (fun j => j ≠ i) ids = ids.
Proof.
  induction ids as [|j ids IH]; intros Hnin; [done |].
  rewrite filter_cons_True.
  - f_equal. apply IH. intros ?. apply Hnin. by right.
  - intros ->. apply Hnin. by left.
Qed.

Lemma first_registrations_NoDup ids :
  NoDup ids → first_registrations ids = ids.
Proof.
  induction 1 as [|i ids Hnin Hnd IH]; cbn [first_registrations]; [done |].
  by rewrite IH, filter_other_id.
Qed.

(** *** Registry after a history of calls *)

Lemma run_snoc cs (x : call) R : run (cs ++ [x]) R = snd (perform x (run cs R)).
Proof. unfold run. by rewrite foldl_snoc. Qed.

Lemma run_category_keys cs R :
  NoDup (JsMap.keys (categories R)) →
  JsMap.keys (categories (run cs R)) =
  first_registrations (JsMap.keys (categories R) ++ added_categories cs).
Proof.
  intros Hnd. induction cs as [|x cs IH] using rev_ind.
  - simpl. unfold added_categories. simpl.
    by rewrite app_nil_r, first_registrations_NoDup.
  - rewrite run_snoc. unfold added_categories in *. rewrite omap_app.
    destruct x as [config | cid l i col]; simpl.
    + by rewrite register_categories, app_nil_r.
    + rewrite jsmap_keys_set, IH, app_assoc, first_registrations_snoc.
      destruct (decide (cid ∈ JsMap.keys (categories R) ++ omap _ cs)) as [Hin|Hnin].
      * rewrite decide_True; [done | by apply elem_of_first_registrations].
      * rewrite decide_False; [done | by rewrite elem_of_first_registrations].
Qed.

Lemma keyed_by_id_set m cid l i col :
  keyed_by_id m → keyed_by_id (JsMap.set cid (mkCategory cid l i col) m).
Proof.
  unfold keyed_by_id. induction 1 as [|[k c] m Hk Hm IH]; simpl.
  - by repeat constructor.
  - case_decide; constructor; done.
Qed.

Lemma run_keyed_by_id cs R :
  keyed_by_id (categories R) → keyed_by_id (categories (run cs R)).
Proof.
  intros H. induction cs as [|x cs IH] using rev_ind; [done |].
  rewrite run_snoc. destruct x as [config | cid l i col]; simpl.
  - by rewrite register_categories.
  - by apply keyed_by_id_set.
Qed.

Lemma keyed_by_id_values m :
  keyed_by_id m → cat_id <$> JsMap.values m = JsMap.keys m.
Proof.
  unfold JsMap.values, JsMap.keys.
  induction 1 as [|[k c] m Hk Hm IH]; [done |].
  rewrite !fmap_cons. cbn [fst snd] in *. by rewrite IH, Hk.
Qed.

Lemma initial_keyed_by_id : keyed_by_id (categories initial).
Proof. by repeat constructor. Qed.

Lemma initial_category_keys :
  JsMap.keys (categories initial) = ["counting"; "reading"; "thinking"; "feelings"].
Proof. reflexivity. Qed.

Lemma initial_category_keys_NoDup : NoDup (JsMap.keys (categories initial)).
Proof.
  rewrite initial_category_keys.
  apply (bool_decide_unpack _). by vm_compute.
Qed.

Lemma run_game_keys cs R x :
  x ∈ JsMap.keys (games (run cs R)) ↔
  x ∈ JsMap.keys (games R) ∨ x ∈ registered_games cs.
Proof.
  induction cs as [|y cs IH] using rev_ind.
  - unfold registered_games. simpl. rewrite elem_of_nil. tauto.
  - rewrite run_snoc. unfold registered_games in *. rewrite omap_app, elem_of_app.
    destruct y as [config | cid l i col]; simpl.
    + unfold register, throw.
      destruct (rejected config) eqn:Hr; simpl.
      * rewrite IH, elem_of_nil. tauto.
      * apply rejected_false_iff in Hr as (i & Hi & _). rewrite Hi. simpl.
        rewrite jsmap_keys_set, list_elem_of_singleton.
        destruct (decide (i ∈ JsMap.keys (games (run cs R)))) as [Hin|Hnin].
        -- rewrite IH. split; [tauto |].
           intros [?|[?| ->]]; [tauto | tauto | by apply IH].
        -- rewrite elem_of_app, list_elem_of_singleton, IH. tauto.
    + rewrite IH, elem_of_nil. tauto.
Qed.

(** C3.  [register] rejects a config whose id is missing (not there, or
    the empty string: the guard [!config.id] does not tell them apart)
    or whose [init] or [destroy] is missing: it throws and the registry
    is left exactly as it was.  A config with a non-empty id, an [init]
    and a [destroy] is stored under its id: an id already in the
    collection has its entry overwritten in place, a new id is added
    last; the entries of the other ids and the categories are
    untouched. *)
Theorem register_validates_config config R :
  ((id config = None ∨ id config = Some "" ∨
    init config = None ∨ destroy config = None) →
     ∃ msg, register config R = (Throw (Error msg), R))
  ∧ (∀ i, id config = Some i → i ≠ "" →
          is_Some (init config) → is_Some (destroy config) →
     ∃ R', register config R = (Normal tt, R')
           ∧ get i R' = Some config
           ∧ (∀ j, j ≠ i → get j R' = get j R)
           ∧ JsMap.keys (games R') =
               (if decide (i ∈ JsMap.keys (games R))
                then JsMap.keys (games R)
                else JsMap.keys (games R) ++ [i])
           ∧ categories R' = categories R).
Proof.
  split.
  - intros H. by apply register_rejected, rejected_true_iff.
  - intros i Hi Hne Hinit Hdestroy.
    assert (rejected config = false) as Hr
      by (apply rejected_false_iff; eauto).
    eexists. split; [by apply register_accepted |].
    unfold get. cbn [games categories]. split_and!.
    + apply jsmap_get_set_eq.
    + intros j Hj. by apply jsmap_get_set_ne.
    + apply jsmap_keys_set.
    + done.
Qed.

(** C8.  Registering a valid config [D] (one that passes the guard of
    [register]: non-empty id, [init] and [destroy] there) and then
    looking its id up gives [D] back.  Looking up an id that no
    successful registration used gives the not-found value [None];
    [get] is a total function and has no throwing path. *)
Theorem register_then_get :
  (∀ D R i, id D = Some i → i ≠ "" → is_Some (init D) → is_Some (destroy D) →
     ∃ R', register D R = (Normal tt, R') ∧ get i R' = Some D)
  ∧ (∀ cs gid, gid ∉ registered_games cs → get gid (run cs initial) = None).
Proof.
  split.
  - intros D R i Hi Hne Hinit Hdestroy.
    assert (rejected D = false) as Hr by (apply rejected_false_iff; eauto).
    eexists. split; [by apply register_accepted |].
    apply jsmap_get_set_eq.
  - intros cs gid Hnin. unfold get. apply jsmap_get_None.
    rewrite run_game_keys. intros [Hin|Hin]; [|done].
    by apply elem_of_nil in Hin.
Qed.

(** C5.  [getCategories] returns exactly the registered categories
    that have at least one registered game.  A category without a game
    is left out, and it is returned as soon as a first game of that
    category has been registered.  The result keeps the order of the
    category collection, which after any history of calls is the order
    in which the category ids were first registered (the four built-in
    ones first); no category is returned twice. *)
Theorem getCategories_populated_in_order :
  (∀ R c, c ∈ getCategories R ↔
          c ∈ JsMap.values (categories R)
          ∧ ∃ g, g ∈ getAll R ∧ category g = cat_id c)
  ∧ (∀ R c g i,
       c ∈ JsMap.values (categories R) →
       (∀ g', g' ∈ getAll R → category g' ≠ cat_id c) →
       id g = Some i → i ≠ "" → is_Some (init g) → is_Some (destroy g) →
       category g = cat_id c →
       (c ∉ getCategories R) ∧ (c ∈ getCategories (snd (register g R))))
  ∧ (∀ R, getCategories R `sublist_of` JsMap.values (categories R))
  ∧ (∀ cs,
       (cat_id <$> getCategories (run cs initial)) `sublist_of`
         first_registrations
           (["counting"; "reading"; "thinking"; "feelings"] ++ added_categories cs)
       ∧ NoDup (cat_id <$> getCategories (run cs initial))).
Proof.
  split_and!.
  - apply elem_of_getCategories.
  - intros R c g i Hc Hnone Hi Hne Hinit Hdestroy Hcat. split.
    + rewrite elem_of_getCategories. intros (_ & g' & Hg' & Hcat').
      by apply (Hnone g').
    + assert (rejected g = false) as Hr by (apply rejected_false_iff; eauto).
      rewrite (register_accepted g R i Hr Hi). cbn [snd].
      apply elem_of_getCategories. cbn [categories]. split; [done |].
      exists g. split; [| done]. unfold getAll. cbn [games].
      apply jsmap_set_values.
  - intros R. apply sublist_filter.
  - intros cs.
    assert ((cat_id <$> getCategories (run cs initial)) `sublist_of`
            first_registrations
              (["counting"; "reading"; "thinking"; "feelings"] ++ added_categories cs))
      as Hsub.
    { rewrite <- initial_category_keys.
      rewrite <- (run_category_keys cs initial initial_category_keys_NoDup).
      rewrite <- keyed_by_id_values
        by apply run_keyed_by_id, initial_keyed_by_id.
      apply fmap_sublist, sublist_filter. }
    split; [done |].
    eapply sublist_NoDup; [apply NoDup_first_registrations | exact Hsub].
Qed.

End RegistryFacts.

(** ** Storage adapter *)

Section StorageFacts.
Context {D : Type}.
Implicit Types (st : Storage.backend D) (d : D) (key : string).

Lemma load_raw key st : Storage.load key st = (Normal (Storage.raw key st), st).
Proof.
  unfold Storage.load, try_catch, bind, Storage.getItem, Storage.raw, ret.
  by destruct (Storage.reachable st).
Qed.

Lemma writable_Open st : Storage.writable st = true ↔ Storage.state st = Storage.Open.
Proof. unfold Storage.writable. by destruct (Storage.state st). Qed.

Lemma writable_reachable st :
  Storage.writable st = true → Storage.reachable st = true.
Proof. unfold Storage.writable, Storage.reachable. by destruct (Storage.state st). Qed.

Lemma save_writable key d st :
  Storage.writable st = true →
  Storage.save key d st =
    (Normal true,
     {| Storage.items := <[Storage.PREFIX +:+ key := d]> (Storage.items st);
        Storage.state := Storage.Open |}).
Proof.
  intros Hw. unfold Storage.save, try_catch, bind, Storage.setItem, ret.
  rewrite Hw. apply writable_Open in Hw. by rewrite Hw.
Qed.

(** A failing [setItem] is caught: [save] resolves with [false] and the
    store keeps what it had. *)
Lemma save_not_writable key d st :
  Storage.writable st = false →
  Storage.save key d st = (Normal false, st).
Proof.
  intros Hw. unfold Storage.save, try_catch, bind, Storage.setItem, ret.
  by rewrite Hw.
Qed.

Lemma save_never_throws key d st : is_normal (fst (Storage.save key d st)) = true.
Proof.
  destruct (Storage.writable st) eqn:Hw.
  - by rewrite save_writable.
  - by rewrite save_not_writable.
Qed.

Lemma raw_after_save key d st :
  Storage.writable st = true →
  Storage.raw key (snd (Storage.save key d st)) = Some d.
Proof.
  intros Hw. rewrite save_writable by done. unfold Storage.raw. simpl.
  apply lookup_insert_eq.
Qed.

Lemma raw_saved key d (m : gmap string D) :
  Storage.raw key
    {| Storage.items := <[Storage.PREFIX +:+ key := d]> m;
       Storage.state := Storage.Open |} = Some d.
Proof. unfold Storage.raw. cbn. apply lookup_insert_eq. Qed.

End StorageFacts.

(** ** Profile store *)

Section ProfileFacts.
Import ProfileManager.
Implicit Types (st : store) (data : Data) (p : Profile).

Lemma profile_loadData st : loadData st = (Normal (stored st), st).
Proof. unfold loadData, bind. by rewrite load_raw. Qed.

Lemma profile_saveData_writable data st :
  Storage.writable st = true →
  ∃ st', saveData data st = (Normal tt, st')
         ∧ stored st' = data ∧ Storage.writable st' = true.
Proof.
  intros Hw. unfold saveData, bind. rewrite save_writable by done.
  eexists. split; [reflexivity |]. split; [| done].
  unfold stored, Storage.raw. cbn [Storage.items].
  by rewrite lookup_insert_eq.
Qed.

Lemma profile_saveData_not_writable data st :
  Storage.writable st = false → saveData data st = (Normal tt, st).
Proof.
  intros Hw. unfold saveData, bind. by rewrite save_not_writable.
Qed.

Lemma generateId_truthy e : truthy_string (generateId e) = true.
Proof. reflexivity. Qed.

Lemma getAllProfiles_stored st :
  getAllProfiles st = (Normal ((map_to_list (profiles (stored st))).*2), st).
Proof. unfold getAllProfiles, bind. by rewrite profile_loadData. Qed.

Lemma getActiveProfile_stored st :
  getActiveProfile st =
    (Normal (match active (stored st) with
             | Some a => if truthy_string a then profiles (stored st) !! a else None
             | None => None
             end), st).
Proof.
  unfold getActiveProfile, bind. rewrite profile_loadData.
  destruct (active (stored st)) as [a|]; [| done].
  by destruct (truthy_string a).
Qed.

Lemma createProfile_not_writable name avatar e st :
  Storage.writable st = false →
  createProfile name avatar e st =
    (Normal {| p_id := generateId e; p_name := name;
               p_avatar := default "🦄" avatar; p_createdAt := iso_now e |}, st).
Proof.
  intros Hw. unfold createProfile, bind. rewrite profile_loadData.
  by rewrite profile_saveData_not_writable.
Qed.

(** C2, as the code has it.  [createProfile] builds an id from the
    clock and the random source, puts the new profile under that id,
    makes it the active one, saves, and resolves with the new profile.
    It never rejects.  When the store takes the write, the stored
    document is the old one with the new profile inserted and the
    active pointer on it, so [getActiveProfile] then gives the new
    profile, and when the id was not yet a key every profile stored
    before is still there.  When the write fails, the adapter catches
    the failure: the store is left as it was and the new profile is
    resolved all the same. *)
Theorem createProfile_resolves name avatar e st :
  let id := generateId e in
  let profile :=
    {| p_id := id; p_name := name;
       p_avatar := default "🦄" avatar; p_createdAt := iso_now e |} in
  ∃ st', createProfile name avatar e st = (Normal profile, st')
    ∧ (Storage.writable st = true →
         stored st' =
           {| version := version (stored st);
              active := Some id;
              profiles := <[id := profile]> (profiles (stored st)) |}
         ∧ getActiveProfile st' = (Normal (Some profile), st')
         ∧ (profiles (stored st) !! id = None →
              profiles (stored st) ⊆ profiles (stored st')))
    ∧ (Storage.writable st = false → st' = st).
Proof.
  intros id profile.
  destruct (Storage.writable st) eqn:Hw.
  - unfold createProfile, bind. rewrite profile_loadData.
    fold id. fold profile.
    destruct (profile_saveData_writable
                {| version := version (stored st); active := Some id;
                   profiles := <[id := profile]> (profiles (stored st)) |}
                st Hw) as (st' & Hsave & Hst' & Hw').
    rewrite Hsave. exists st'. split; [done |]. split; [| done].
    intros _. split; [done |]. split.
    + rewrite getActiveProfile_stored, Hst'. cbn [active profiles].
      subst id. rewrite generateId_truthy. by rewrite lookup_insert_eq.
    + intros Hfresh. rewrite Hst'. cbn [profiles].
      by apply insert_subseteq.
  - rewrite createProfile_not_writable by done.
    exists st. split; [done |]. split; [done |]. done.
Qed.

(** X29.  The id is not checked against the keys already there: two
    calls that read the same clock value and draw the same random tail use the
    same id, and the second profile takes the place of the first. *)
Lemma createProfile_id_not_checked name1 name2 avatar e st :
  Storage.writable st = true →
  ∃ p1 st1 p2 st2,
    createProfile name1 avatar e st = (Normal p1, st1)
    ∧ createProfile name2 avatar e st1 = (Normal p2, st2)
    ∧ p_id p1 = p_id p2
    ∧ profiles (stored st2) = <[p_id p2 := p2]> (profiles (stored st)).
Proof.
  intros Hw.
  assert (∀ name st0, Storage.writable st0 = true →
    ∃ st', createProfile name avatar e st0
             = (Normal {| p_id := generateId e; p_name := name;
                          p_avatar := default "🦄" avatar;
                          p_createdAt := iso_now e |}, st')
           ∧ profiles (stored st')
             = <[generateId e := {| p_id := generateId e; p_name := name;
                                    p_avatar := default "🦄" avatar;
                                    p_createdAt := iso_now e |}]>
                 (profiles (stored st0))
           ∧ Storage.writable st' = true) as Hstep.
  { intros name st0 Hw0. unfold createProfile, bind. rewrite profile_loadData.
    destruct (profile_saveData_writable
                {| version := version (stored st0); active := Some (generateId e);
                   profiles :=
                     <[generateId e := {| p_id := generateId e; p_name := name;
                                          p_avatar := default "🦄" avatar;
                                          p_createdAt := iso_now e |}]>
                       (profiles (stored st0)) |} st0 Hw0)
      as (st' & Hsave & Hst' & Hw').
    rewrite Hsave. exists st'. split; [done |]. split; [| done].
    by rewrite Hst'. }
  destruct (Hstep name1 st Hw) as (st1 & H1 & Hst1 & Hw1).
  destruct (Hstep name2 st1 Hw1) as (st2 & H2 & Hst2 & _).
  eexists _, st1, _, st2. split; [exact H1 |]. split; [exact H2 |].
  split; [done |]. cbn [p_id]. rewrite Hst2, Hst1. apply insert_insert_eq.
Qed.

Lemma plain_not_inherited id : JsObject.plain id → JsObject.inherited id = false.
Proof. intros Hp. by apply bool_decide_eq_false. Qed.

Lemma setActiveProfile_unfold id st :
  setActiveProfile id st =
    if bool_decide (is_Some (profiles (stored st) !! id)) || JsObject.inherited id
    then (Normal true,
          snd (saveData {| version := version (stored st); active := Some id;
                           profiles := profiles (stored st) |} st))
    else (Normal false, st).
Proof.
  unfold setActiveProfile, bind. rewrite profile_loadData.
  destruct (bool_decide (is_Some (profiles (stored st) !! id))
            || JsObject.inherited id); [| done].
  destruct (Storage.writable st) eqn:Hw.
  - destruct (profile_saveData_writable
                {| version := version (stored st); active := Some id;
                   profiles := profiles (stored st) |} st Hw)
      as (st' & Hsave & _).
    by rewrite Hsave.
  - by rewrite profile_saveData_not_writable.
Qed.

(** X30.  For an id that names no member of [Object.prototype],
    [setActiveProfile] resolves with [true] exactly when the id is a
    key of the profile collection.  For an unknown such id it resolves
    with [false] and leaves the store as it was, so [getActiveProfile]
    gives afterwards what it gave before. *)
Theorem setActiveProfile_guard id st :
  JsObject.plain id →
  ∃ b st', setActiveProfile id st = (Normal b, st')
    ∧ (b = true ↔ is_Some (profiles (stored st) !! id))
    ∧ (profiles (stored st) !! id = None →
         b = false ∧ st' = st
         ∧ fst (getActiveProfile st') = fst (getActiveProfile st)).
Proof.
  intros Hplain. rewrite setActiveProfile_unfold, plain_not_inherited by done.
  rewrite orb_false_r.
  destruct (profiles (stored st) !! id) as [p|] eqn:Hp.
  - rewrite bool_decide_eq_true_2 by eauto.
    eexists true, _. split; [reflexivity |]. split; [| done]. split; eauto.
  - rewrite bool_decide_eq_false_2 by (by intros [? ?]).
    exists false, st. split; [done |]. split.
    + split; [done |]. by intros [? ?].
    + done.
Qed.

(** C7.  The guard of [setActiveProfile] takes a name inherited from
    [Object.prototype] for a stored profile.  The store holds Mia's
    profile, which is active, and no profile under ["constructor"];
    [setActiveProfile "constructor"] resolves with [true] all the same
    and the saved document has ["constructor"] as its active profile,
    which is the key of no profile. *)
Theorem setActiveProfile_accepts_inherited_name :
  profiles (stored Samples.profileStore) !! "constructor" = None
  ∧ active (stored Samples.profileStore) = Some "p_lr0fqi80a7f3c"
  ∧ ∃ st', setActiveProfile "constructor" Samples.profileStore = (Normal true, st')
      ∧ active (stored st') = Some "constructor"
      ∧ profiles (stored st') = profiles (stored Samples.profileStore)
      ∧ profiles (stored st') !! "constructor" = None.
Proof.
  split; [by vm_compute |]. split; [by vm_compute |].
  eexists. split; [by vm_compute |]. split_and!; by vm_compute.
Qed.


Lemma filter_none {A} (P : A → Prop) `{∀ x, Decision (P x)} (l : list A) :
  (∀ x, x ∈ l → ¬ P x) → filter P l = [].
Proof.
  induction l as [|x l IH]; intros Hall; [done |].
  rewrite filter_cons_False by (apply Hall; by left).
  apply IH. intros y Hy. apply Hall. by right.
Qed.

Lemma profile_values_insert (m : gmap string Profile) id p p' :
  m !! id = Some p →
  ∃ rest, (map_to_list m).*2 ≡ₚ p :: rest
          ∧ (map_to_list (<[id := p']> m)).*2 ≡ₚ p' :: rest
          ∧ (∀ q, q ∈ rest → ∃ k, k ≠ id ∧ m !! k = Some q).
Proof.
  intros Hp. exists ((map_to_list (delete id m)).*2). split_and!.
  - rewrite <- (map_to_list_delete m id p Hp). done.
  - rewrite <- insert_delete_eq.
    rewrite map_to_list_insert by apply lookup_delete_eq. done.
  - intros q Hq. apply list_elem_of_fmap in Hq as ([k q'] & -> & Hin).
    apply elem_of_map_to_list, lookup_delete_Some in Hin as [Hne Hq].
    by exists k.
Qed.

(** C9.  With a store that takes the write, renaming an existing
    profile resolves with the renamed profile, and [getAllProfiles]
    then lists the same profiles as before except that the one entry
    of that id now carries the new name, with id, avatar and creation
    time as they were; when every profile is stored under its own id,
    the listing holds exactly one profile of that id.  For an unknown
    id that names no member of [Object.prototype], [updateProfile]
    resolves with the not-found value and leaves the store as it
    was.  With a store that takes no write the renamed profile is
    returned all the same, and the store, hence the listing, is as it
    was. *)
Theorem updateProfile_name_roundtrip id st :
  (∀ newName p,
     Storage.writable st = true →
     profiles (stored st) !! id = Some p →
     let p' := {| p_id := p_id p; p_name := newName;
                  p_avatar := p_avatar p; p_createdAt := p_createdAt p |} in
     ∃ st' before after rest,
       updateProfile id (mkUpdates None (Some newName) None None) st
         = (Normal (Some p'), st')
       ∧ getAllProfiles st = (Normal before, st)
       ∧ getAllProfiles st' = (Normal after, st')
       ∧ before ≡ₚ p :: rest
       ∧ after ≡ₚ p' :: rest
       ∧ profiles (stored st') !! id = Some p'
       ∧ (∀ j, j ≠ id → profiles (stored st') !! j = profiles (stored st) !! j)
       ∧ ((∀ k q, profiles (stored st) !! k = Some q → p_id q = k) →
            filter (fun q => p_id q = id) after = [p']))
  ∧ (∀ updates,
       JsObject.plain id →
       profiles (stored st) !! id = None →
       updateProfile id updates st = (Normal None, st))
  ∧ (∀ newName p,
       Storage.writable st = false →
       profiles (stored st) !! id = Some p →
       updateProfile id (mkUpdates None (Some newName) None None) st
         = (Normal (Some {| p_id := p_id p; p_name := newName;
                            p_avatar := p_avatar p;
                            p_createdAt := p_createdAt p |}), st)).
Proof.
  split; [| split].
  - intros newName p Hw Hp p'.
    destruct (profile_saveData_writable
                {| version := version (stored st); active := active (stored st);
                   profiles := <[id := p']> (profiles (stored st)) |} st Hw)
      as (st' & Hsave & Hst' & _).
    destruct (profile_values_insert _ id p p' Hp)
      as (rest & Hbefore & Hafter & Hrest).
    exists st', ((map_to_list (profiles (stored st))).*2),
           ((map_to_list (<[id := p']> (profiles (stored st)))).*2), rest.
    split_and!; try done.
    + unfold updateProfile, bind. rewrite profile_loadData, Hp.
      change (assign p (mkUpdates None (Some newName) None None)) with p'.
      by rewrite Hsave.
    + apply getAllProfiles_stored.
    + by rewrite getAllProfiles_stored, Hst'.
    + rewrite Hst'. cbn [profiles]. apply lookup_insert_eq.
    + intros j Hj. rewrite Hst'. cbn [profiles]. by apply lookup_insert_ne.
    + intros Hkeyed. apply Permutation_singleton_r.
      rewrite Hafter, filter_cons_True by (cbn; by apply Hkeyed).
      assert (filter (fun q => p_id q = id) rest = []) as ->; [| done].
      apply filter_none. intros q Hq Hid.
      destruct (Hrest q Hq) as (k & Hne & Hk).
      apply Hne. rewrite <- Hid. symmetry. by apply Hkeyed.
  - intros updates _ Hp. unfold updateProfile, bind.
    by rewrite profile_loadData, Hp.
  - intros newName p Hw Hp. unfold updateProfile, bind.
    rewrite profile_loadData, Hp.
    by rewrite profile_saveData_not_writable.
Qed.

(** C10.  [updateProfile] does not protect the id field.  With a store
    that takes the write, updating an existing profile with a
    different id in [updates] succeeds, and the profile then stored
    under the original key carries the other id: key and id field no
    longer agree. *)
Theorem updateProfile_overwrites_id id otherId p st :
  Storage.writable st = true →
  profiles (stored st) !! id = Some p →
  otherId ≠ id →
  ∃ p' st',
    updateProfile id (mkUpdates (Some otherId) None None None) st
      = (Normal (Some p'), st')
    ∧ p_id p' = otherId
    ∧ profiles (stored st') !! id = Some p'
    ∧ p_id p' ≠ id
    ∧ p_name p' = p_name p ∧ p_avatar p' = p_avatar p
    ∧ p_createdAt p' = p_createdAt p.
Proof.
  intros Hw Hp Hne.
  set (p' := assign p (mkUpdates (Some otherId) None None None)).
  destruct (profile_saveData_writable
              {| version := version (stored st); active := active (stored st);
                 profiles := <[id := p']> (profiles (stored st)) |} st Hw)
    as (st' & Hsave & Hst' & _).
  exists p', st'. split_and!; try done.
  - unfold updateProfile, bind. rewrite profile_loadData, Hp.
    fold p'. by rewrite Hsave.
  - rewrite Hst'. cbn [profiles]. apply lookup_insert_eq.
Qed.

End ProfileFacts.

(** ** Progress store *)

Section ProgressFacts.
Import ProgressManager.
Implicit Types (st : store) (data : Data) (r : ProgressRecord).

Lemma progress_loadData st : loadData st = (Normal (stored st), st).
Proof. unfold loadData, bind. by rewrite load_raw. Qed.

Lemma progress_saveData_writable data st :
  Storage.writable st = true →
  ∃ st', saveData data st = (Normal tt, st')
         ∧ stored st' = data ∧ Storage.writable st' = true.
Proof.
  intros Hw. unfold saveData, bind. rewrite save_writable by done.
  eexists. split; [reflexivity |]. split; [| done].
  unfold stored, Storage.raw. cbn [Storage.items].
  by rewrite lookup_insert_eq.
Qed.

Lemma progress_saveData_not_writable data st :
  Storage.writable st = false → saveData data st = (Normal tt, st).
Proof.
  intros Hw. unfold saveData, bind. by rewrite save_not_writable.
Qed.

Lemma getGameProgress_stored profileId gameId st :
  getGameProgress profileId gameId st =
    (Normal (default makeDefault (lookup_record (stored st) profileId gameId)), st).
Proof. unfold getGameProgress, bind. by rewrite progress_loadData. Qed.

Lemma slot_record data profileId gameId :
  default ∅ (profiles data !! profileId) !! gameId
  = lookup_record data profileId gameId.
Proof.
  unfold lookup_record. destruct (profiles data !! profileId); [done |].
  apply lookup_empty.
Qed.

Lemma assign_all_fields r r' : assign r (all_fields r') = r'.
Proof. by destruct r'. Qed.

(** What [updateGameProgress] resolves with, and what it leaves in the
    store. *)
Lemma updateGameProgress_stored profileId gameId updates now st :
  let r := set_lastPlayed
             (assign (default makeDefault
                        (lookup_record (stored st) profileId gameId)) updates)
             (Some now) in
  ∃ st', updateGameProgress profileId gameId updates now st = (Normal r, st')
    ∧ (Storage.writable st = true →
         lookup_record (stored st') profileId gameId = Some r
         ∧ Storage.writable st' = true)
    ∧ (Storage.writable st = false → st' = st).
Proof.
  intros r. unfold updateGameProgress, bind. rewrite progress_loadData.
  rewrite slot_record. fold r.
  destruct (Storage.writable st) eqn:Hw.
  - destruct (progress_saveData_writable
                {| version := version (stored st);
                   profiles :=
                     <[profileId :=
                         <[gameId := r]> (default ∅ (profiles (stored st) !! profileId))]>
                       (profiles (stored st)) |} st Hw)
      as (st' & Hsave & Hst' & Hw').
    rewrite Hsave. exists st'. split; [done |]. split; [| done].
    intros _. split; [| done].
    rewrite Hst'. unfold lookup_record. cbn [profiles].
    rewrite lookup_insert_eq. simpl. apply lookup_insert_eq.
  - rewrite progress_saveData_not_writable by done.
    exists st. done.
Qed.

Lemma raise_best (level best : Z) :
  (if (level >? best)%Z then level else best) = Z.max best level.
Proof. destruct (Z.gtb_spec level best); lia. Qed.

Lemma recordSession_stored profileId gameId level now st :
  let old := default makeDefault (lookup_record (stored st) profileId gameId) in
  let r := {| sessionsPlayed := sessionsPlayed old + 1;
              currentLevel := level;
              bestLevel := Z.max (bestLevel old) level;
              lastPlayed := Some now;
              custom := custom old |} in
  ∃ st', recordSession profileId gameId level now st = (Normal r, st')
    ∧ (Storage.writable st = true →
         lookup_record (stored st') profileId gameId = Some r
         ∧ Storage.writable st' = true)
    ∧ (Storage.writable st = false → st' = st).
Proof.
  intros old r. unfold recordSession, bind.
  rewrite getGameProgress_stored. fold old.
  destruct (updateGameProgress_stored profileId gameId
              (all_fields
                 {| sessionsPlayed := sessionsPlayed old + 1;
                    currentLevel := level;
                    bestLevel := if (level >? bestLevel old)%Z
                                 then level else bestLevel old;
                    lastPlayed := lastPlayed old;
                    custom := custom old |}) now st)
    as (st' & Hupd & Hrest).
  rewrite assign_all_fields, raise_best in Hupd, Hrest.
  rewrite raise_best.
  exists st'. split; [exact Hupd | exact Hrest].
Qed.

(** When the save fails the session is not kept: on a store whose
    quota is used up [recordSession] still resolves with the new
    record, but the next call starts from the record stored before. *)
Lemma recordSession_not_writable profileId gameId level now st :
  Storage.writable st = false →
  let old := default makeDefault (lookup_record (stored st) profileId gameId) in
  ∃ r, recordSession profileId gameId level now st = (Normal r, st)
       ∧ bestLevel r = Z.max (bestLevel old) level
       ∧ currentLevel r = level.
Proof.
  intros Hw old.
  destruct (recordSession_stored profileId gameId level now st)
    as (st' & Hrec & _ & Hfull).
  rewrite (Hfull Hw) in Hrec. eexists. split; [exact Hrec |]. done.
Qed.

(** C4.  For a profile id and a game id that name no member of
    [Object.prototype], and a count of sessions that [sessionsPlayed++]
    can raise (in the range where doubles are exact), [recordSession]
    resolves with a record in which [sessionsPlayed] is one more than
    before, [currentLevel] is the level given and [bestLevel] is the
    larger of the former best level and the level given (a pair never
    written counts with the default record); a store that takes the
    write then holds that record.  Hence, with such a store, a session
    at level 3 followed by one at level 2 leaves [currentLevel = 2] and
    [bestLevel] at the larger of the former best and 3, which is 3
    whenever the best level was at most 3 before, as it is for a pair
    never written.  With a store that takes no write the record is
    returned but not kept. *)
Theorem recordSession_levels profileId gameId st :
  JsObject.plain profileId → JsObject.plain gameId →
  let old := default makeDefault (lookup_record (stored st) profileId gameId) in
  (∀ level now,
     JsNumber.exact (sessionsPlayed old) →
     JsNumber.exact (sessionsPlayed old + 1) →
     ∃ r st', recordSession profileId gameId level now st = (Normal r, st')
       ∧ sessionsPlayed r = (sessionsPlayed old + 1)%Z
       ∧ currentLevel r = level
       ∧ bestLevel r = Z.max (bestLevel old) level
       ∧ (Storage.writable st = true →
            lookup_record (stored st') profileId gameId = Some r))
  ∧ (∀ now1 now2,
       JsNumber.exact (sessionsPlayed old) →
       JsNumber.exact (sessionsPlayed old + 2) →
       Storage.writable st = true →
       ∃ r1 st1 r2 st2,
         recordSession profileId gameId 3 now1 st = (Normal r1, st1)
         ∧ recordSession profileId gameId 2 now2 st1 = (Normal r2, st2)
         ∧ lookup_record (stored st2) profileId gameId = Some r2
         ∧ currentLevel r2 = 2%Z
         ∧ bestLevel r2 = Z.max (bestLevel old) 3
         ∧ ((bestLevel old <= 3)%Z → bestLevel r2 = 3%Z)
         ∧ sessionsPlayed r2 = (sessionsPlayed old + 2)%Z)
  ∧ (∀ level now,
       Storage.writable st = false →
       ∃ r, recordSession profileId gameId level now st = (Normal r, st)
            ∧ currentLevel r = level
            ∧ bestLevel r = Z.max (bestLevel old) level).
Proof.
  intros _ _ old. split; [| split].
  - intros level now _ _.
    destruct (recordSession_stored profileId gameId level now st)
      as (st' & Hrec & Hw & _).
    eexists _, st'. split; [exact Hrec |]. cbn.
    split_and!; try done. intros H. by apply Hw.
  - intros now1 now2 _ _ Hw.
    destruct (recordSession_stored profileId gameId 3 now1 st)
      as (st1 & Hrec1 & Hw1 & _).
    destruct (Hw1 Hw) as [Hst1 Hw1'].
    destruct (recordSession_stored profileId gameId 2 now2 st1)
      as (st2 & Hrec2 & Hw2 & _).
    destruct (Hw2 Hw1') as [Hst2 _].
    rewrite Hst1 in Hrec2, Hst2. cbn in Hrec2, Hst2.
    eexists _, st1, _, st2.
    split; [exact Hrec1 |]. split; [exact Hrec2 |].
    split; [exact Hst2 |]. cbn. fold old.
    split_and!; [done | lia | lia | lia].
  - intros level now Hw.
    destruct (recordSession_not_writable profileId gameId level now st Hw)
      as (r & Hrec & Hbest & Hcur).
    exists r. split; [exact Hrec |]. split; [exact Hcur | exact Hbest].
Qed.


(** For a profile id and a game id that name no member of
    [Object.prototype] and have no record, [getGameProgress] resolves
    with the default record and leaves the store exactly as it was: a
    raw read still shows no entry for the pair.  The entry is there
    after the first write that the store takes. *)
Lemma getGameProgress_default_not_persisted profileId gameId st :
  JsObject.plain profileId → JsObject.plain gameId →
  lookup_record (stored st) profileId gameId = None →
  ∃ st', getGameProgress profileId gameId st
           = (Normal {| sessionsPlayed := 0; currentLevel := 1; bestLevel := 1;
                        lastPlayed := None; custom := JObj [] |}, st')
    ∧ st' = st
    ∧ Storage.raw KEY st' = Storage.raw KEY st
    ∧ (∀ d, Storage.raw KEY st' = Some d → lookup_record d profileId gameId = None)
    ∧ (∀ updates now,
         Storage.writable st' = true →
         ∃ r st'' d,
           updateGameProgress profileId gameId updates now st' = (Normal r, st'')
           ∧ Storage.raw KEY st'' = Some d
           ∧ lookup_record d profileId gameId = Some r).
Proof.
  intros _ _ Hnone. exists st. rewrite getGameProgress_stored, Hnone.
  split; [done |]. split; [done |]. split; [done |]. split.
  - intros d Hd. unfold stored in Hnone. by rewrite Hd in Hnone.
  - intros updates now Hw.
    destruct (updateGameProgress_stored profileId gameId updates now st)
      as (st'' & Hupd & Hw'' & _).
    destruct (Hw'' Hw) as [Hrec _].
    unfold stored in Hrec.
    destruct (Storage.raw KEY st'') as [d|] eqn:Hd.
    + eexists _, st'', d. split; [exact Hupd |]. split; [done |]. exact Hrec.
    + simpl in Hrec. unfold lookup_record in Hrec. cbn in Hrec.
      by rewrite lookup_empty in Hrec.
Qed.

End ProgressFacts.

(** ** Session controller *)

Section AppFacts.
Import App.
Implicit Types (w : World) (r : RenderFn) (g : GameRegistry.GameConfig).

(** [showScreen] with a game held: [destroy] is called on it once, at
    once, the reference is dropped, and the new screen is only queued:
    what [app] shows has not changed yet. *)
Lemma showScreen_tears_down r w g :
  activeGame w = Some g →
  ∃ w', showScreen r w = (Normal tt, w')
    ∧ calls w' = calls w ++ [Destroy g]
    ∧ activeGame w' = None
    ∧ timers w' = timers w ++ [r]
    ∧ screen w' = screen w.
Proof.
  intros Hg. unfold showScreen. rewrite Hg. eexists. split; [reflexivity |].
  done.
Qed.

Lemma showScreen_no_game r w :
  activeGame w = None →
  ∃ w', showScreen r w = (Normal tt, w')
    ∧ calls w' = calls w
    ∧ activeGame w' = None
    ∧ timers w' = timers w ++ [r]
    ∧ screen w' = screen w.
Proof.
  intros Hg. unfold showScreen. rewrite Hg. eexists. split; [reflexivity |].
  done.
Qed.

Lemma withProfiles_getActiveProfile w :
  ∃ p, withProfiles ProfileManager.getActiveProfile w = (Normal p, w).
Proof.
  unfold withProfiles. rewrite getActiveProfile_stored.
  eexists. by destruct w.
Qed.

(** Every transition function goes through [showScreen] ([launchGame]
    does nothing at all for an id the registry does not know). *)
Lemma transitions_use_showScreen (e : event) w :
  e ≠ TimerFires →
  (∃ r, step e w = snd (showScreen r w))
  ∨ (∃ gid, e = CallLaunchGame gid
            ∧ GameRegistry.get gid (registry w) = None ∧ step e w = w).
Proof.
  intros He. destruct e as [| |c|gid|]; [| | | |done]; cbn [step].
  - left. by exists RenderWelcome.
  - left. unfold renderMenu, bind.
    destruct (withProfiles_getActiveProfile w) as (p & ->).
    destruct p as [p|]; [| by exists RenderWelcome].
    by eexists (RenderMenu p _).
  - left. by eexists (RenderCategory _ _).
  - unfold launchGame, bind.
    destruct (GameRegistry.get gid (registry w)) as [g|] eqn:Hg.
    + left. destruct (withProfiles_getActiveProfile w) as (p & ->).
      by eexists (RenderGame g gid p).
    + right. by exists gid.
Qed.

(** A second launch made while the first game is running: the first
    game is destroyed once, before the second is initialised. *)
Lemma launch_while_running w a b gA gB :
  activeGame w = None → timers w = [] →
  GameRegistry.get a (registry w) = Some gA →
  GameRegistry.get b (registry w) = Some gB →
  let w' := run [CallLaunchGame a; TimerFires; CallLaunchGame b; TimerFires] w in
  calls w' = calls w ++ [Init gA; Destroy gA; Init gB]
  ∧ activeGame w' = Some gB.
Proof.
  intros Hg Ht Ha Hb. destruct w as [R ps ag ts sc cs]. simpl in *. subst.
  unfold run, foldl, step, launchGame, bind. cbn [registry].
  rewrite Ha.
  destruct (withProfiles_getActiveProfile
              {| registry := R; profileStore := ps; activeGame := None;
                 timers := []; screen := sc; calls := cs |}) as (p & ->).
  cbn. rewrite Hb.
  match goal with |- context [withProfiles _ ?w] =>
    destruct (withProfiles_getActiveProfile w) as (p' & ->) end.
  cbn. by rewrite <- !app_assoc.
Qed.

Lemma mounted_snoc cs (c : Call) :
  mounted (cs ++ [c]) =
  match c with
  | Init g => mounted cs ++ [g]
  | Destroy g => remove_first g (mounted cs)
  end.
Proof. unfold mounted. by rewrite foldl_snoc. Qed.

(** One transition that is left to finish keeps the mounted modules and
    the held reference in step. *)
Lemma settled_step e w :
  e ≠ TimerFires →
  timers w = [] → mounted (calls w) = held w →
  let w' := run (settled e) w in
  timers w' = [] ∧ mounted (calls w') = held w'.
Proof.
  intros He Ht Hm. unfold settled, run. cbn [foldl].
  destruct (transitions_use_showScreen e w He) as [[r Hr] | (gid & _ & _ & Hr)];
    rewrite Hr; clear Hr.
  - destruct w as [R ps ag ts sc cs]. cbn -[mounted] in Ht, Hm. subst ts.
    unfold showScreen, timerFires, held in *.
    destruct ag as [g|]; destruct r; cbn -[mounted] in *;
      rewrite ?mounted_snoc, ?Hm; cbn; rewrite ?decide_True by done; done.
  - cbn [step]. unfold timerFires. by rewrite Ht.
Qed.

(** X28.  As long as every transition is left to finish before the
    next one is requested, the mounted modules are exactly the held one: at most
    one module is mounted. *)
Lemma settled_transitions_single_mount es w :
  Forall (fun e => e ≠ TimerFires) es →
  timers w = [] → mounted (calls w) = held w →
  let w' := run (es ≫= settled) w in
  timers w' = []
  ∧ mounted (calls w') = held w'
  ∧ (length (mounted (calls w')) ≤ 1)%nat.
Proof.
  intros Hes. revert w. induction Hes as [|e es He Hes IH]; intros w Ht Hm.
  - cbn. split; [done |]. split; [done |].
    rewrite Hm. unfold held. destruct (activeGame w); cbn; lia.
  - cbn [mbind list_bind]. unfold run. rewrite foldl_app.
    destruct (settled_step e w He Ht Hm) as [Ht' Hm'].
    by apply IH.
Qed.

(** Two launches requested before the timer of the first has fired:
    both games are initialised and none is destroyed. *)
Lemma launch_before_render w a b gA gB :
  activeGame w = None → timers w = [] →
  GameRegistry.get a (registry w) = Some gA →
  GameRegistry.get b (registry w) = Some gB →
  let w' := run [CallLaunchGame a; CallLaunchGame b; TimerFires; TimerFires] w in
  calls w' = calls w ++ [Init gA; Init gB]
  ∧ activeGame w' = Some gB
  ∧ mounted (calls w') = mounted (calls w) ++ [gA; gB].
Proof.
  intros Hg Ht Ha Hb. destruct w as [R ps ag ts sc cs]. simpl in *. subst.
  unfold run, foldl, step, launchGame, bind. cbn [registry].
  rewrite Ha.
  destruct (withProfiles_getActiveProfile
              {| registry := R; profileStore := ps; activeGame := None;
                 timers := []; screen := sc; calls := cs |}) as (p & ->).
  cbn. rewrite Hb.
  match goal with |- context [withProfiles _ ?w] =>
    destruct (withProfiles_getActiveProfile w) as (p' & ->) end.
  cbn -[mounted]. rewrite <- !app_assoc. split; [done |]. split; [done |].
  by rewrite (app_assoc cs [Init gA] [Init gB]), !mounted_snoc, <- app_assoc.
Qed.

(** C1.  The property: at every transition a held game module is
    destroyed once before the next screen is built, so that at most one
    module is mounted at any time, and a game launched after another
    sees the other destroyed before its own [init].  The first part
    holds ([showScreen_tears_down]), and so does the rest when every
    transition is left to finish ([settled_transitions_single_mount],
    [launch_while_running]).  This is the input where the code departs
    from it.  On the screen of
    the "reading" category, two game tiles are clicked one after the
    other before the 200 ms timer of the first click has fired.  Each
    [launchGame] finds no game held, so neither calls [destroy]; then
    both timers fire.  [init] is called on the first game and on the
    second, [destroy] on none: two game modules are mounted, and only
    the second is held in [activeGame]. *)
Theorem double_launch_mounts_two_games :
  let w := run [CallLaunchGame "letter-safari"; CallLaunchGame "story-bubbles";
                TimerFires; TimerFires] Samples.world in
  calls w = [Init Samples.letterSafari; Init Samples.storyBubbles]
  ∧ mounted (calls w) = [Samples.letterSafari; Samples.storyBubbles]
  ∧ activeGame w = Some Samples.storyBubbles
  ∧ timers w = [].
Proof. vm_compute. done. Qed.

End AppFacts.

(** ** The properties at sample inputs *)

Section Instances.

Example toString36_samples :
  ProfileManager.toString36 0 = "0"
  ∧ ProfileManager.toString36 35 = "z"
  ∧ ProfileManager.toString36 36 = "10"
  ∧ ProfileManager.toString36 1704447000000 = "lr0fqi80".
Proof. by vm_compute. Qed.

Example generateId_sample :
  ProfileManager.generateId Samples.env = "p_lr0fqi80a7f3c".
Proof. by vm_compute. Qed.

Lemma register_validates_config_witness :
  (∃ msg, GameRegistry.register Samples.noDestroy GameRegistry.initial
          = (Throw (Error msg), GameRegistry.initial))
  ∧ (∃ R', GameRegistry.register Samples.letterSafari GameRegistry.initial
           = (Normal tt, R')
           ∧ GameRegistry.get "letter-safari" R' = Some Samples.letterSafari).
Proof.
  split.
  - apply (proj1 (register_validates_config Samples.noDestroy GameRegistry.initial)).
    right. right. right. reflexivity.
  - destruct (proj2 (register_validates_config Samples.letterSafari
                       GameRegistry.initial)
                "letter-safari" eq_refl ltac:(discriminate)
                (ex_intro _ 1%N eq_refl) (ex_intro _ 2%N eq_refl))
      as (R' & H1 & H2 & _).
    exists R'. split; assumption.
Defined.

Lemma register_then_get_witness :
  (∃ R', GameRegistry.register Samples.storyBubbles GameRegistry.initial
         = (Normal tt, R')
         ∧ GameRegistry.get "story-bubbles" R' = Some Samples.storyBubbles)
  ∧ ("feeling-faces" ∉ GameRegistry.registered_games Samples.startup)
  ∧ GameRegistry.get "feeling-faces" Samples.registry = None.
Proof.
  split; [| split].
  - apply (proj1 register_then_get Samples.storyBubbles GameRegistry.initial
             "story-bubbles" eq_refl ltac:(discriminate)
             (ex_intro _ 3%N eq_refl) (ex_intro _ 4%N eq_refl)).
  - apply (bool_decide_unpack _). vm_compute. exact I.
  - apply (proj2 register_then_get Samples.startup "feeling-faces").
    apply (bool_decide_unpack _). vm_compute. exact I.
Defined.

Lemma getCategories_populated_in_order_witness :
  Samples.reading ∈ JsMap.values (GameRegistry.categories GameRegistry.initial)
  ∧ (Samples.reading ∉ GameRegistry.getCategories GameRegistry.initial)
  ∧ Samples.reading ∈
      GameRegistry.getCategories
        (snd (GameRegistry.register Samples.letterSafari GameRegistry.initial)).
Proof.
  assert (Samples.reading
            ∈ JsMap.values (GameRegistry.categories GameRegistry.initial)) as Hin.
  { apply list_elem_of_further, list_elem_of_here. }
  split; [exact Hin |].
  apply (proj1 (proj2 getCategories_populated_in_order)
           GameRegistry.initial Samples.reading Samples.letterSafari
           "letter-safari" Hin).
  - intros g' Hg'. apply elem_of_nil in Hg'. destruct Hg'.
  - reflexivity.
  - discriminate.
  - exact (ex_intro _ 1%N eq_refl).
  - exact (ex_intro _ 2%N eq_refl).
  - reflexivity.
Defined.

(** C2, where the claim fails.  The quota of the store is used up, so
    the save under [createProfile] fails: the adapter's [save]
    resolves with [false].  [createProfile] does not reject for that:
    it resolves with the new profile, and nothing has been stored. *)
Lemma createProfile_save_failure_not_propagated :
  let profile :=
    {| ProfileManager.p_id := "p_lr0fqi80a7f3c";
       ProfileManager.p_name := "Mia";
       ProfileManager.p_avatar := "🐼";
       ProfileManager.p_createdAt := "2024-01-05T09:30:00.000Z" |} in
  let data :=
    {| ProfileManager.version := 1;
       ProfileManager.active := Some "p_lr0fqi80a7f3c";
       ProfileManager.profiles := {[ "p_lr0fqi80a7f3c" := profile ]} |} in
  Storage.save ProfileManager.KEY data Samples.fullStore
    = (Normal false, Samples.fullStore)
  ∧ ProfileManager.createProfile "Mia" (Some "🐼") Samples.env Samples.fullStore
    = (Normal profile, Samples.fullStore)
  ∧ ¬ (∃ e, fst (ProfileManager.createProfile "Mia" (Some "🐼") Samples.env
                   Samples.fullStore) = Throw e).
Proof.
  intros profile data.
  assert (ProfileManager.createProfile "Mia" (Some "🐼") Samples.env Samples.fullStore
          = (Normal profile, Samples.fullStore)) as Hcreate.
  { by rewrite createProfile_not_writable. }
  split; [by apply save_not_writable |]. split; [exact Hcreate |].
  intros [e He]. rewrite Hcreate in He. discriminate.
Qed.

Lemma createProfile_resolves_witness :
  (∃ st', ProfileManager.createProfile "Mia" (Some "🐼") Samples.env Samples.emptyStore
          = (Normal Samples.mia, st')
          ∧ ProfileManager.getActiveProfile st' = (Normal (Some Samples.mia), st'))
  ∧ (∃ st', ProfileManager.createProfile "Mia" (Some "🐼") Samples.env Samples.fullStore
            = (Normal Samples.mia, st')
            ∧ st' = Samples.fullStore).
Proof.
  split.
  - destruct (createProfile_resolves "Mia" (Some "🐼") Samples.env Samples.emptyStore)
      as (st' & Hc & Hw & _).
    destruct (Hw eq_refl) as (_ & Hactive & _).
    exists st'. split; [exact Hc | exact Hactive].
  - destruct (createProfile_resolves "Mia" (Some "🐼") Samples.env Samples.fullStore)
      as (st' & Hc & _ & Hfull).
    exists st'. split; [exact Hc | exact (Hfull eq_refl)].
Defined.

Lemma setActiveProfile_guard_witness :
  JsObject.plain "p_nobody"
  ∧ ∃ b st', ProfileManager.setActiveProfile "p_nobody" Samples.profileStore
             = (Normal b, st')
      ∧ b = false ∧ st' = Samples.profileStore
      ∧ fst (ProfileManager.getActiveProfile st')
        = fst (ProfileManager.getActiveProfile Samples.profileStore).
Proof.
  assert (JsObject.plain "p_nobody") as Hplain by solve_plain.
  split; [exact Hplain |].
  destruct (setActiveProfile_guard "p_nobody" Samples.profileStore Hplain)
    as (b & st' & Hset & _ & Hunknown).
  exists b, st'. split; [exact Hset |].
  apply Hunknown. vm_compute. reflexivity.
Defined.

Lemma updateProfile_name_roundtrip_witness :
  Storage.writable Samples.profileStore = true
  ∧ ProfileManager.profiles (ProfileManager.stored Samples.profileStore)
      !! "p_lr0fqi80a7f3c" = Some Samples.mia
  ∧ (∃ st' after,
       ProfileManager.updateProfile "p_lr0fqi80a7f3c"
         (ProfileManager.mkUpdates None (Some "New") None None) Samples.profileStore
       = (Normal (Some (ProfileManager.mkProfile "p_lr0fqi80a7f3c" "New" "🐼"
                          "2024-01-05T09:30:00.000Z")), st')
       ∧ ProfileManager.getAllProfiles st' = (Normal after, st')
       ∧ filter (fun q => ProfileManager.p_id q = "p_lr0fqi80a7f3c") after
         = [ProfileManager.mkProfile "p_lr0fqi80a7f3c" "New" "🐼"
              "2024-01-05T09:30:00.000Z"])
  ∧ ProfileManager.updateProfile "p_nobody"
      (ProfileManager.mkUpdates None (Some "New") None None) Samples.profileStore
    = (Normal None, Samples.profileStore).
Proof.
  assert (ProfileManager.profiles (ProfileManager.stored Samples.profileStore)
          = {[ "p_lr0fqi80a7f3c" := Samples.mia ]}) as Hstored
    by (vm_compute; reflexivity).
  assert (ProfileManager.profiles (ProfileManager.stored Samples.profileStore)
            !! "p_lr0fqi80a7f3c" = Some Samples.mia) as Hmia
    by (rewrite Hstored; apply lookup_singleton_eq).
  split; [reflexivity |]. split; [exact Hmia |]. split.
  - destruct (proj1 (updateProfile_name_roundtrip "p_lr0fqi80a7f3c"
                       Samples.profileStore) "New" Samples.mia eq_refl Hmia)
      as (st' & before & after & rest & Hupd & _ & Hall & _ & _ & _ & _ & Hone).
    exists st', after. split; [exact Hupd |]. split; [exact Hall |].
    apply Hone. intros k q. rewrite Hstored.
    intros [<- <-]%lookup_singleton_Some. reflexivity.
  - apply (proj1 (proj2 (updateProfile_name_roundtrip "p_nobody"
                            Samples.profileStore))).
    + solve_plain.
    + rewrite Hstored. apply lookup_singleton_ne. discriminate.
Defined.

(** C9, where the claim fails.  On a store that takes no write the
    renamed profile is returned, but the listing still shows the old
    name and no profile of the new name. *)
Lemma updateProfile_rename_lost_when_save_fails :
  ProfileManager.profiles (ProfileManager.stored Scenarios.fullProfileStore)
    !! "p_lr0fqi80a7f3c" = Some Samples.mia
  ∧ ∃ p' st' after,
      ProfileManager.updateProfile "p_lr0fqi80a7f3c"
        (ProfileManager.mkUpdates None (Some "New") None None)
        Scenarios.fullProfileStore = (Normal (Some p'), st')
      ∧ ProfileManager.p_name p' = "New"
      ∧ ProfileManager.getAllProfiles st' = (Normal after, st')
      ∧ after = [Samples.mia]
      ∧ ¬ ∃ q, q ∈ after ∧ ProfileManager.p_name q = "New".
Proof.
  split; [by vm_compute |].
  eexists _, _, [Samples.mia].
  split; [by vm_compute |]. split; [done |]. split; [by vm_compute |].
  split; [done |].
  intros (q & Hq & Hname). apply list_elem_of_singleton in Hq. subst q.
  discriminate.
Qed.

Lemma updateProfile_overwrites_id_witness :
  Storage.writable Samples.profileStore = true
  ∧ ProfileManager.profiles (ProfileManager.stored Samples.profileStore)
      !! "p_lr0fqi80a7f3c" = Some Samples.mia
  ∧ "p_other" ≠ "p_lr0fqi80a7f3c"
  ∧ ∃ p' st',
      ProfileManager.updateProfile "p_lr0fqi80a7f3c"
        (ProfileManager.mkUpdates (Some "p_other") None None None)
        Samples.profileStore
      = (Normal (Some p'), st')
      ∧ ProfileManager.p_id p' = "p_other"
      ∧ ProfileManager.profiles (ProfileManager.stored st') !! "p_lr0fqi80a7f3c"
        = Some p'.
Proof.
  assert (ProfileManager.profiles (ProfileManager.stored Samples.profileStore)
            !! "p_lr0fqi80a7f3c" = Some Samples.mia) as Hmia
    by (vm_compute; reflexivity).
  assert ("p_other" ≠ "p_lr0fqi80a7f3c") as Hne by discriminate.
  split; [reflexivity |]. split; [exact Hmia |]. split; [exact Hne |].
  destruct (updateProfile_overwrites_id "p_lr0fqi80a7f3c" "p_other" Samples.mia
              Samples.profileStore eq_refl Hmia Hne)
    as (p' & st' & Hupd & Hid & Hstored & _).
  exists p', st'. split; [exact Hupd |]. split; [exact Hid | exact Hstored].
Defined.

Lemma recordSession_levels_witness :
  JsObject.plain "p_lr0fqi80a7f3c" ∧ JsObject.plain "letter-safari"
  ∧ Storage.writable Samples.progressStore = true
  ∧ ∃ r1 st1 r2 st2,
      ProgressManager.recordSession "p_lr0fqi80a7f3c" "letter-safari" 3
        "2024-01-05T09:31:00.000Z" Samples.progressStore = (Normal r1, st1)
      ∧ ProgressManager.recordSession "p_lr0fqi80a7f3c" "letter-safari" 2
          "2024-01-05T09:32:00.000Z" st1 = (Normal r2, st2)
      ∧ ProgressManager.currentLevel r2 = 2%Z
      ∧ ProgressManager.bestLevel r2 = 3%Z.
Proof.
  assert (JsObject.plain "p_lr0fqi80a7f3c") as Hp by solve_plain.
  assert (JsObject.plain "letter-safari") as Hg by solve_plain.
  split; [exact Hp |]. split; [exact Hg |]. split; [reflexivity |].
  destruct (proj1 (proj2 (recordSession_levels "p_lr0fqi80a7f3c" "letter-safari"
                            Samples.progressStore Hp Hg))
              "2024-01-05T09:31:00.000Z" "2024-01-05T09:32:00.000Z"
              ltac:(by vm_compute) ltac:(by vm_compute) eq_refl)
    as (r1 & st1 & r2 & st2 & H1 & H2 & _ & Hcur & _ & Hbest & _).
  exists r1, st1, r2, st2.
  split; [exact H1 |]. split; [exact H2 |]. split; [exact Hcur |].
  apply Hbest. vm_compute. discriminate.
Defined.

(** C4, where the claim fails.  On a store that takes no write the
    session at level 3 is not kept, so the session at level 2 starts
    from the default record and ends with best level 2, and no record
    is stored. *)
Lemma recordSession_best_level_lost_when_save_fails :
  ∃ r1 st1 r2 st2,
    ProgressManager.recordSession "p_lr0fqi80a7f3c" "letter-safari" 3
      "2024-01-05T09:31:00.000Z" Scenarios.fullProgressStore = (Normal r1, st1)
    ∧ ProgressManager.recordSession "p_lr0fqi80a7f3c" "letter-safari" 2
        "2024-01-05T09:32:00.000Z" st1 = (Normal r2, st2)
    ∧ ProgressManager.currentLevel r2 = 2%Z
    ∧ ProgressManager.bestLevel r2 = 2%Z
    ∧ ProgressManager.bestLevel r2 ≠ 3%Z
    ∧ ProgressManager.lookup_record (ProgressManager.stored st2)
        "p_lr0fqi80a7f3c" "letter-safari" = None.
Proof.
  eexists _, _, _, _.
  split; [by vm_compute |]. split; [by vm_compute |].
  split_and!; by vm_compute.
Qed.

Lemma getGameProgress_default_not_persisted_witness :
  JsObject.plain "p_lr0fqi80a7f3c" ∧ JsObject.plain "letter-safari"
  ∧ ProgressManager.lookup_record (ProgressManager.stored Samples.progressStore)
      "p_lr0fqi80a7f3c" "letter-safari" = None
  ∧ ∃ st', ProgressManager.getGameProgress "p_lr0fqi80a7f3c" "letter-safari"
             Samples.progressStore
           = (Normal (ProgressManager.mkRecord 0 1 1 None (JObj [])), st')
      ∧ st' = Samples.progressStore.
Proof.
  assert (JsObject.plain "p_lr0fqi80a7f3c") as Hp by solve_plain.
  assert (JsObject.plain "letter-safari") as Hg by solve_plain.
  assert (ProgressManager.lookup_record
            (ProgressManager.stored Samples.progressStore)
            "p_lr0fqi80a7f3c" "letter-safari" = None) as Hnone
    by (vm_compute; reflexivity).
  split; [exact Hp |]. split; [exact Hg |]. split; [exact Hnone |].
  destruct (getGameProgress_default_not_persisted "p_lr0fqi80a7f3c" "letter-safari"
              Samples.progressStore Hp Hg Hnone)
    as (st' & Hget & Hsame & _).
  exists st'. split; [exact Hget | exact Hsame].
Defined.

End Instances.

(* ===================================================================== *)
(** * Further properties *)
(* ===================================================================== *)

(** ** Storage adapter: round trips *)

Section StorageRoundTrips.
Context {D : Type}.
Implicit Types (st : Storage.backend D) (d : D) (key : string).

Lemma prefixed_inj key key' :
  Storage.PREFIX +:+ key = Storage.PREFIX +:+ key' → key = key'.
Proof. apply (inj (String.app Storage.PREFIX)). Qed.

(** X1.  [save] never throws and resolves with [true] exactly when the
    write went through.  After a successful [save], [load] of the same
    key gives the saved document; after a failed one the store is as it
    was.  In both cases [load] of any other key gives what it gave
    before. *)
Theorem save_then_load key d st :
  ∃ ok st',
    Storage.save key d st = (Normal ok, st')
    ∧ ok = Storage.writable st
    ∧ (ok = true → Storage.load key st' = (Normal (Some d), st'))
    ∧ (ok = false → st' = st)
    ∧ (∀ key', key' ≠ key →
         fst (Storage.load key' st') = fst (Storage.load key' st)).
Proof.
  destruct (Storage.writable st) eqn:Hw.
  - rewrite save_writable by done. eexists true, _.
    split; [reflexivity |]. split; [done |]. split_and!.
    + intros _. by rewrite load_raw, raw_saved.
    + done.
    + intros key' Hne. rewrite !load_raw. unfold Storage.raw.
      rewrite (writable_reachable st Hw). cbn.
      rewrite lookup_insert_ne; [done |].
      intros Heq. by apply Hne, symmetry, prefixed_inj.
  - rewrite save_not_writable by done. exists false, st. done.
Qed.

(** X2.  [remove] never throws and resolves with [true] exactly when
    [localStorage] can be reached, also when its quota is used up.
    Afterwards [load] of that key gives nothing and [load] of any other
    key gives what it gave before; a failed [remove] leaves the store
    as it was, and removing a key that holds nothing leaves the items
    as they were. *)
Theorem remove_then_load key st :
  ∃ ok st',
    Storage.remove key st = (Normal ok, st')
    ∧ ok = Storage.reachable st
    ∧ Storage.load key st' = (Normal None, st')
    ∧ (∀ key', key' ≠ key →
         fst (Storage.load key' st') = fst (Storage.load key' st))
    ∧ (ok = false → st' = st)
    ∧ (Storage.raw key st = None → Storage.items st' = Storage.items st).
Proof.
  unfold Storage.remove, try_catch, bind, Storage.removeItem, ret.
  destruct (Storage.reachable st) eqn:Hr.
  - eexists true, _. split; [reflexivity |]. split; [done |].
    assert (∀ m : gmap string D,
              Storage.reachable
                {| Storage.items := m; Storage.state := Storage.state st |}
              = true) as Hr' by (intros m; exact Hr).
    split_and!.
    + rewrite load_raw. unfold Storage.raw. rewrite Hr'. cbn [Storage.items].
      by rewrite lookup_delete_eq.
    + intros key' Hne. rewrite !load_raw. unfold Storage.raw.
      rewrite Hr', Hr. cbn [Storage.items fst].
      rewrite lookup_delete_ne; [done |].
      intros Heq. by apply Hne, symmetry, prefixed_inj.
    + done.
    + unfold Storage.raw. rewrite Hr. intros Hnone. cbn [Storage.items].
      by apply delete_id.
  - exists false, st. split; [reflexivity |]. split; [done |].
    split_and!; try done.
    rewrite load_raw. unfold Storage.raw. by rewrite Hr.
Qed.

End StorageRoundTrips.

(** ** Profile store: edge cases, composition, invariants *)

Section ProfileMore.
Import ProfileManager.
Implicit Types (st : store) (data : Data) (p : Profile).

Lemma stored_saved data st :
  stored {| Storage.items := <[Storage.PREFIX +:+ KEY := data]> (Storage.items st);
            Storage.state := Storage.Open |} = data.
Proof. unfold stored, Storage.raw. cbn. by rewrite lookup_insert_eq. Qed.

Lemma saveData_result data st :
  saveData data st =
    (Normal tt,
     if Storage.writable st
     then {| Storage.items := <[Storage.PREFIX +:+ KEY := data]> (Storage.items st);
             Storage.state := Storage.Open |}
     else st).
Proof.
  unfold saveData, bind. destruct (Storage.writable st) eqn:Hw.
  - by rewrite save_writable.
  - by rewrite save_not_writable.
Qed.

Lemma setActiveProfile_result id st :
  setActiveProfile id st =
    if bool_decide (is_Some (profiles (stored st) !! id)) || JsObject.inherited id
    then
      (Normal true,
       if Storage.writable st
       then {| Storage.items :=
                 <[Storage.PREFIX +:+ KEY :=
                     {| version := version (stored st); active := Some id;
                        profiles := profiles (stored st) |}]> (Storage.items st);
               Storage.state := Storage.Open |}
       else st)
    else (Normal false, st).
Proof.
  unfold setActiveProfile, bind. rewrite profile_loadData.
  destruct (bool_decide (is_Some (profiles (stored st) !! id))
            || JsObject.inherited id); [| done].
  by rewrite saveData_result.
Qed.

Lemma setActiveProfile_stored id p st :
  profiles (stored st) !! id = Some p →
  setActiveProfile id st =
    (Normal true,
     if Storage.writable st
     then {| Storage.items :=
               <[Storage.PREFIX +:+ KEY :=
                   {| version := version (stored st); active := Some id;
                      profiles := profiles (stored st) |}]> (Storage.items st);
             Storage.state := Storage.Open |}
     else st).
Proof.
  intros Hp. rewrite setActiveProfile_result.
  by rewrite bool_decide_eq_true_2 by eauto.
Qed.

Lemma setActiveProfile_unknown id st :
  JsObject.plain id →
  profiles (stored st) !! id = None →
  setActiveProfile id st = (Normal false, st).
Proof.
  intros Hplain Hp. rewrite setActiveProfile_result.
  rewrite plain_not_inherited by done.
  by rewrite bool_decide_eq_false_2 by (rewrite Hp; by intros [? ?]).
Qed.

Lemma updateProfile_result id updates st :
  updateProfile id updates st =
    match profiles (stored st) !! id with
    | Some p =>
        (Normal (Some (assign p updates)),
         if Storage.writable st
         then {| Storage.items :=
                   <[Storage.PREFIX +:+ KEY :=
                       {| version := version (stored st); active := active (stored st);
                          profiles := <[id := assign p updates]> (profiles (stored st)) |}]>
                     (Storage.items st);
                 Storage.state := Storage.Open |}
         else st)
    | None => (Normal None, st)
    end.
Proof.
  unfold updateProfile, bind. rewrite profile_loadData.
  destruct (profiles (stored st) !! id); [| done].
  by rewrite saveData_result.
Qed.

Lemma stored_writable_perform (o : op) st :
  Storage.writable (perform o st) = Storage.writable st.
Proof.
  destruct o as [name avatar e | id | id updates]; cbn [perform].
  - unfold createProfile, bind. rewrite profile_loadData, saveData_result.
    by destruct (Storage.writable st) eqn:Hw.
  - rewrite setActiveProfile_result.
    destruct (bool_decide (is_Some (profiles (stored st) !! id))
              || JsObject.inherited id); [| done].
    by destruct (Storage.writable st) eqn:Hw.
  - rewrite updateProfile_result.
    destruct (profiles (stored st) !! id); [| done].
    by destruct (Storage.writable st) eqn:Hw.
Qed.

(** What one call leaves in the store. *)
Lemma stored_perform (o : op) st :
  stored (perform o st) =
  if Storage.writable st then
    match o with
    | CreateProfile name avatar e =>
        {| version := version (stored st);
           active := Some (generateId e);
           profiles :=
             <[generateId e :=
                 {| p_id := generateId e; p_name := name;
                    p_avatar := default "🦄" avatar;
                    p_createdAt := iso_now e |}]> (profiles (stored st)) |}
    | SetActiveProfile id =>
        if bool_decide (is_Some (profiles (stored st) !! id))
           || JsObject.inherited id
        then {| version := version (stored st); active := Some id;
                profiles := profiles (stored st) |}
        else stored st
    | UpdateProfile id updates =>
        match profiles (stored st) !! id with
        | Some p => {| version := version (stored st); active := active (stored st);
                       profiles := <[id := assign p updates]> (profiles (stored st)) |}
        | None => stored st
        end
    end
  else stored st.
Proof.
  destruct o as [name avatar e | id | id updates]; cbn [perform].
  - unfold createProfile, bind. rewrite profile_loadData, saveData_result.
    unfold ret. destruct (Storage.writable st) eqn:Hw; cbn [snd]; [| done].
    by rewrite stored_saved.
  - rewrite setActiveProfile_result.
    destruct (bool_decide (is_Some (profiles (stored st) !! id))
              || JsObject.inherited id); cbn [snd];
      destruct (Storage.writable st) eqn:Hw; try done.
    by rewrite stored_saved.
  - rewrite updateProfile_result.
    destruct (profiles (stored st) !! id); cbn [snd];
      destruct (Storage.writable st) eqn:Hw; try done.
    by rewrite stored_saved.
Qed.

End ProfileMore.

Section ProfileTheorems.
Import ProfileManager.
Implicit Types (st : store) (data : Data) (p : Profile).


(** X3.  A store that holds no profile document yet answers every read
    with the empty answer and takes no write from the guarded calls:
    there is no active profile, the listing is empty, and for an id
    that names no member of [Object.prototype] [setActiveProfile]
    resolves with [false] and [updateProfile] with the not-found value;
    the store is left untouched by all four. *)
Theorem profile_store_without_document id updates st :
  JsObject.plain id →
  Storage.raw KEY st = None →
  getActiveProfile st = (Normal None, st)
  ∧ getAllProfiles st = (Normal [], st)
  ∧ setActiveProfile id st = (Normal false, st)
  ∧ updateProfile id updates st = (Normal None, st).
Proof.
  intros Hplain Hraw.
  assert (stored st = empty_data) as Hst by (unfold stored; by rewrite Hraw).
  split_and!.
  - by rewrite getActiveProfile_stored, Hst.
  - rewrite getAllProfiles_stored, Hst. cbn [profiles empty_data].
    by rewrite map_to_list_empty.
  - apply setActiveProfile_unknown; [done |]. rewrite Hst. apply lookup_empty.
  - rewrite updateProfile_result, Hst. cbn [profiles empty_data].
    by rewrite lookup_empty.
Qed.

(** X4.  Switching to a stored profile: [setActiveProfile] resolves with
    [true] whether or not the save went through.  When it did, the
    profile collection is as before and [getActiveProfile] gives the
    profile stored under that id (for a non-empty id); when it did not,
    the store is unchanged, so the switch is lost although [true] was
    returned. *)
Theorem setActiveProfile_then_getActiveProfile id p st :
  profiles (stored st) !! id = Some p →
  ∃ st', setActiveProfile id st = (Normal true, st')
    ∧ (Storage.writable st = true →
         profiles (stored st') = profiles (stored st)
         ∧ active (stored st') = Some id
         ∧ (id ≠ "" → getActiveProfile st' = (Normal (Some p), st')))
    ∧ (Storage.writable st = false → st' = st).
Proof.
  intros Hp. rewrite (setActiveProfile_stored id p st Hp).
  eexists. split; [reflexivity |].
  destruct (Storage.writable st) eqn:Hw.
  - split; [| done]. intros _.
    rewrite getActiveProfile_stored, stored_saved. cbn [profiles active].
    split; [done |]. split; [done |].
    intros Hne. rewrite Hp. by destruct id.
  - split; [done |]. done.
Qed.

(** X5.  With a store that takes the write and an id not used yet,
    [createProfile] adds exactly one profile: the listing afterwards is
    the listing before plus the new profile, and every profile that was
    stored is still stored under its key. *)
Theorem createProfile_extends_listing name avatar e st :
  Storage.writable st = true →
  profiles (stored st) !! generateId e = None →
  ∃ p st' before after,
    createProfile name avatar e st = (Normal p, st')
    ∧ getAllProfiles st = (Normal before, st)
    ∧ getAllProfiles st' = (Normal after, st')
    ∧ after ≡ₚ p :: before
    ∧ length after = S (length before)
    ∧ (∀ k q, profiles (stored st) !! k = Some q →
              profiles (stored st') !! k = Some q).
Proof.
  intros Hw Hfresh.
  pose proof (stored_perform (CreateProfile name avatar e) st) as Hst'.
  rewrite Hw in Hst'. cbn [perform] in Hst'.
  destruct (createProfile name avatar e st) as [c st'] eqn:Hc.
  assert (c = Normal {| p_id := generateId e; p_name := name;
                        p_avatar := default "🦄" avatar;
                        p_createdAt := iso_now e |}) as ->.
  { revert Hc. unfold createProfile, bind. rewrite profile_loadData.
    edestruct (profile_saveData_writable) as (st1 & -> & _); [exact Hw |].
    by intros [= <- _]. }
  cbn [snd] in Hst'.
  eexists _, st', _, _. split; [reflexivity |].
  split; [unfold getAllProfiles, bind; by rewrite profile_loadData |].
  split; [unfold getAllProfiles, bind; by rewrite profile_loadData |].
  rewrite Hst'. cbn [profiles].
  assert ((map_to_list
             (<[generateId e :=
                  {| p_id := generateId e; p_name := name;
                     p_avatar := default "🦄" avatar;
                     p_createdAt := iso_now e |}]> (profiles (stored st)))).*2
          ≡ₚ {| p_id := generateId e; p_name := name;
                p_avatar := default "🦄" avatar;
                p_createdAt := iso_now e |}
             :: (map_to_list (profiles (stored st))).*2) as Hperm.
  { by rewrite map_to_list_insert. }
  split_and!.
  - exact Hperm.
  - by rewrite Hperm.
  - intros k q Hk. rewrite lookup_insert_ne; [done |].
    intros <-. by rewrite Hfresh in Hk.
Qed.

Lemma run_snoc_profile ops (o : op) st : run (ops ++ [o]) st = perform o (run ops st).
Proof. unfold run. by rewrite foldl_snoc. Qed.

(** X6.  Profiles stay stored under their own ids: if every stored
    profile carries the id of its key, this is still so after any
    sequence of [createProfile], [setActiveProfile] and [updateProfile]
    calls, as long as no [updateProfile] is given a different id in its
    updates; this holds whether the store takes the writes or not. *)
Theorem run_keeps_profiles_keyed_by_id ops st :
  Forall keeps_id ops →
  keyed_by_id (stored st) →
  keyed_by_id (stored (run ops st)).
Proof.
  intros Hops Hkeyed. induction ops as [|o ops IH] using rev_ind; [done |].
  apply Forall_app in Hops as [Hops Ho]. apply Forall_inv in Ho.
  specialize (IH Hops). rewrite run_snoc_profile, stored_perform.
  destruct (Storage.writable (run ops st)); [| done].
  destruct o as [name avatar e | id | id updates]; cbn [keeps_id] in Ho.
  - intros k q. cbn [profiles].
    intros [[<- <-] | [_ Hq]]%lookup_insert_Some; [done | by apply IH].
  - destruct (bool_decide (is_Some (profiles (stored (run ops st)) !! id))
              || JsObject.inherited id); [| done].
    intros k q Hq. by apply IH.
  - destruct (profiles (stored (run ops st)) !! id) as [p|] eqn:Hp; [| done].
    intros k q. cbn [profiles].
    intros [[<- <-] | [_ Hq]]%lookup_insert_Some; [| by apply IH].
    unfold assign. cbn [p_id].
    destruct Ho as [-> | ->]; cbn; [by apply IH | done].
Qed.

(** X7.  Once a profile is active, one stays active.  When no profile
    is stored under the empty key and the active pointer names a stored
    profile, the same holds after any sequence of calls whose id names
    no member of [Object.prototype], and if [getActiveProfile] gave a
    profile before the calls it gives one after them too: no such call
    clears the pointer or removes a profile. *)
Theorem run_keeps_an_active_profile ops st :
  Forall plain_call ops →
  pointer_ok (stored st) →
  pointer_ok (stored (run ops st))
  ∧ (∀ p, getActiveProfile st = (Normal (Some p), st) →
          ∃ p', getActiveProfile (run ops st) = (Normal (Some p'), run ops st)).
Proof.
  intros Hplain Hok.
  assert (∀ st0, pointer_ok (stored st0) → is_Some (active (stored st0)) →
                 ∃ p', getActiveProfile st0 = (Normal (Some p'), st0)) as Hget.
  { intros st0 [Hempty Hptr] [a Ha]. rewrite getActiveProfile_stored, Ha.
    destruct (Hptr a Ha) as [p' Hp']. exists p'.
    destruct a as [|c a]; [by rewrite Hempty in Hp' |]. cbn. by rewrite Hp'. }
  assert (pointer_ok (stored (run ops st))
          ∧ (is_Some (active (stored st)) →
             is_Some (active (stored (run ops st))))) as [Hok' Hact].
  { induction ops as [|o ops IH] using rev_ind; [done |].
    apply Forall_app in Hplain as [Hplain Ho]. apply Forall_inv in Ho.
    destruct (IH Hplain) as [IHok IHact].
    rewrite run_snoc_profile, stored_perform.
    destruct (Storage.writable (run ops st)); [| done].
    destruct IHok as [Hempty Hptr].
    destruct o as [name avatar e | id | id updates]; cbn [plain_call] in Ho.
    - split; [| by eauto]. split; cbn.
      + rewrite lookup_insert_ne; [done |]. unfold generateId. done.
      + intros a [= <-]. rewrite lookup_insert_eq. eauto.
    - rewrite (plain_not_inherited id Ho), orb_false_r.
      destruct (profiles (stored (run ops st)) !! id) as [q|] eqn:Hq.
      + rewrite bool_decide_eq_true_2 by eauto.
        split; [| by eauto]. split; cbn; [done |].
        intros a [= <-]. rewrite Hq. eauto.
      + rewrite bool_decide_eq_false_2 by (by intros [? ?]). done.
    - destruct (profiles (stored (run ops st)) !! id) as [q|] eqn:Hq;
        [| done].
      split; [| done]. split; cbn.
      + rewrite lookup_insert_ne; [done |]. intros ->. by rewrite Hempty in Hq.
      + intros a Ha. apply lookup_insert_is_Some'. right. by apply Hptr. }
  split; [done |]. intros p Hp. apply Hget; [done |]. apply Hact.
  rewrite getActiveProfile_stored in Hp.
  destruct (active (stored st)); [eauto | done].
Qed.

Lemma assign_twice p updates : assign (assign p updates) updates = assign p updates.
Proof.
  unfold assign. cbn.
  by destruct (u_id updates), (u_name updates),
              (u_avatar updates), (u_createdAt updates).
Qed.

(** X8.  [setActiveProfile] and [updateProfile] can be repeated: the
    same call made twice in a row resolves the second time with what it
    resolved with the first time, and leaves the store as the first
    call left it. *)
Theorem profile_calls_can_be_repeated id updates st :
  setActiveProfile id (snd (setActiveProfile id st))
    = (fst (setActiveProfile id st), snd (setActiveProfile id st))
  ∧ updateProfile id updates (snd (updateProfile id updates st))
    = (fst (updateProfile id updates st), snd (updateProfile id updates st)).
Proof.
  split.
  - rewrite (setActiveProfile_result id st).
    destruct (bool_decide (is_Some (profiles (stored st) !! id))
              || JsObject.inherited id) eqn:Hguard; cbn [fst snd].
    + destruct (Storage.writable st) eqn:Hw.
      * rewrite setActiveProfile_result, stored_saved. cbn.
        by rewrite Hguard, insert_insert_eq.
      * by rewrite setActiveProfile_result, Hguard, Hw.
    + by rewrite setActiveProfile_result, Hguard.
  - rewrite (updateProfile_result id updates st).
    destruct (profiles (stored st) !! id) as [p|] eqn:Hp; cbn [fst snd].
    + destruct (Storage.writable st) eqn:Hw.
      * rewrite updateProfile_result, stored_saved. cbn.
        by rewrite lookup_insert_eq, assign_twice, !insert_insert_eq.
      * by rewrite updateProfile_result, Hp, Hw.
    + by rewrite updateProfile_result, Hp.
Qed.

End ProfileTheorems.

(** ** Progress store: merging, round trips, frame, sessions in a row *)

Section ProgressTheorems.
Import ProgressManager.
Implicit Types (st : store) (data : Data) (r : ProgressRecord).

Lemma progress_stored_saved data st :
  stored {| Storage.items := <[Storage.PREFIX +:+ KEY := data]> (Storage.items st);
            Storage.state := Storage.Open |} = data.
Proof. unfold stored, Storage.raw. cbn. by rewrite lookup_insert_eq. Qed.

Lemma updateGameProgress_result profileId gameId updates now st :
  let slot := default ∅ (profiles (stored st) !! profileId) in
  let r := set_lastPlayed
             (assign (default makeDefault
                        (lookup_record (stored st) profileId gameId)) updates)
             (Some now) in
  updateGameProgress profileId gameId updates now st =
    (Normal r,
     if Storage.writable st
     then {| Storage.items :=
               <[Storage.PREFIX +:+ KEY :=
                   {| version := version (stored st);
                      profiles := <[profileId := <[gameId := r]> slot]>
                                    (profiles (stored st)) |}]> (Storage.items st);
             Storage.state := Storage.Open |}
     else st).
Proof.
  intros slot r. unfold updateGameProgress, bind. rewrite progress_loadData.
  rewrite slot_record. fold slot. fold r.
  unfold saveData, bind. destruct (Storage.writable st) eqn:Hw.
  - by rewrite save_writable.
  - by rewrite save_not_writable.
Qed.

(** X9.  [updateGameProgress] merges shallowly and reads back, for a
    profile id and a game id that name no member of [Object.prototype].
    The record it resolves with takes each field from [updates] when it is
    given there and from the stored record (the default record for a
    pair never written) when it is not; [custom] is replaced as a
    whole; [lastPlayed] is the time of the call even when [updates]
    carries one.  With a store that takes the write, [getGameProgress]
    then resolves with that same record; with one that does not, the
    store is unchanged and [getGameProgress] gives what it gave
    before. *)
Theorem updateGameProgress_merges_and_reads_back profileId gameId updates now st :
  JsObject.plain profileId → JsObject.plain gameId →
  let old := default makeDefault (lookup_record (stored st) profileId gameId) in
  ∃ r st',
    updateGameProgress profileId gameId updates now st = (Normal r, st')
    ∧ sessionsPlayed r = default (sessionsPlayed old) (u_sessionsPlayed updates)
    ∧ currentLevel r = default (currentLevel old) (u_currentLevel updates)
    ∧ bestLevel r = default (bestLevel old) (u_bestLevel updates)
    ∧ custom r = default (custom old) (u_custom updates)
    ∧ lastPlayed r = Some now
    ∧ (Storage.writable st = true →
         getGameProgress profileId gameId st' = (Normal r, st'))
    ∧ (Storage.writable st = false →
         st' = st ∧ getGameProgress profileId gameId st' = (Normal old, st')).
Proof.
  intros _ _ old. rewrite updateGameProgress_result. fold old.
  eexists _, _. split; [reflexivity |].
  split_and!; try reflexivity.
  - intros ->. rewrite getGameProgress_stored, progress_stored_saved.
    unfold lookup_record. cbn [profiles]. rewrite lookup_insert_eq. cbn.
    by rewrite lookup_insert_eq.
  - intros ->. split; [done |]. by rewrite getGameProgress_stored.
Qed.

(** X10.  [updateGameProgress] touches one record only: the record of
    every other pair of profile and game, other games of the same
    profile included, is afterwards what it was before (all ids naming
    no member of [Object.prototype]). *)
Theorem updateGameProgress_leaves_other_records
    profileId gameId updates now st profileId' gameId' :
  JsObject.plain profileId → JsObject.plain gameId →
  JsObject.plain profileId' → JsObject.plain gameId' →
  (profileId', gameId') ≠ (profileId, gameId) →
  lookup_record
    (stored (snd (updateGameProgress profileId gameId updates now st)))
    profileId' gameId'
  = lookup_record (stored st) profileId' gameId'.
Proof.
  intros _ _ _ _ Hne. rewrite updateGameProgress_result. cbn [snd].
  destruct (Storage.writable st); [| done].
  rewrite progress_stored_saved. unfold lookup_record. cbn [profiles].
  destruct (decide (profileId' = profileId)) as [-> | Hp].
  - rewrite lookup_insert_eq. cbn.
    rewrite lookup_insert_ne by (intros <-; by apply Hne).
    destruct (profiles (stored st) !! profileId); [done |]. cbn.
    apply lookup_empty.
  - by rewrite lookup_insert_ne.
Qed.

Lemma getAllProgress_stored profileId st :
  getAllProgress profileId st
  = (Normal (default ∅ (profiles (stored st) !! profileId)), st).
Proof. unfold getAllProgress, bind. by rewrite progress_loadData. Qed.

(** X11.  [getAllProgress] gives the records of one profile, for a
    profile id that names no member of [Object.prototype]: for every
    game its entry is the record [getGameProgress] finds, a game
    without entry (whose id names no such member either) is one for
    which [getGameProgress] resolves with the default record, a profile
    never written has the empty mapping, and the store is not
    changed. *)
Theorem getAllProgress_agrees_with_getGameProgress profileId st :
  JsObject.plain profileId →
  ∃ m, getAllProgress profileId st = (Normal m, st)
    ∧ (∀ gameId r, m !! gameId = Some r →
         getGameProgress profileId gameId st = (Normal r, st))
    ∧ (∀ gameId, JsObject.plain gameId → m !! gameId = None →
         getGameProgress profileId gameId st = (Normal makeDefault, st))
    ∧ (profiles (stored st) !! profileId = None → m = ∅).
Proof.
  intros _. exists (default ∅ (profiles (stored st) !! profileId)).
  split; [apply getAllProgress_stored |]. split_and!.
  - intros gameId r Hr. rewrite slot_record in Hr.
    by rewrite getGameProgress_stored, Hr.
  - intros gameId _ Hr. rewrite slot_record in Hr.
    by rewrite getGameProgress_stored, Hr.
  - by intros ->.
Qed.

Lemma recordSessions_snoc profileId gameId sessions (s : Z * string) st :
  recordSessions profileId gameId (sessions ++ [s]) st
  = snd (recordSession profileId gameId s.1 s.2
           (recordSessions profileId gameId sessions st)).
Proof. unfold recordSessions. by rewrite foldl_snoc. Qed.

(** X12.  Sessions recorded in a row, with a store that takes the
    writes, ids that name no member of [Object.prototype] and counts
    that stay in the range where doubles are exact: [sessionsPlayed]
    grows by the number of sessions,
    [currentLevel] is the level of the last one, [bestLevel] is the
    largest of the former best level and all the levels, [custom] is
    kept, and the stored record has [currentLevel <= bestLevel]
    whatever the record held before. *)
Theorem recordSessions_totals profileId gameId sessions level now st :
  JsObject.plain profileId → JsObject.plain gameId →
  Storage.writable st = true →
  let old := default makeDefault (lookup_record (stored st) profileId gameId) in
  JsNumber.exact (sessionsPlayed old) →
  JsNumber.exact (sessionsPlayed old + Z.of_nat (length sessions) + 1) →
  ∃ r,
    lookup_record
      (stored (recordSessions profileId gameId (sessions ++ [(level, now)]) st))
      profileId gameId = Some r
    ∧ sessionsPlayed r = (sessionsPlayed old + Z.of_nat (length sessions) + 1)%Z
    ∧ currentLevel r = level
    ∧ bestLevel r = foldl Z.max (bestLevel old) (sessions.*1 ++ [level])
    ∧ lastPlayed r = Some now
    ∧ custom r = custom old
    ∧ (bestLevel old <= bestLevel r)%Z
    ∧ (currentLevel r <= bestLevel r)%Z.
Proof.
  intros _ _ Hw old _ _.
  assert (∀ ss,
    Storage.writable (recordSessions profileId gameId ss st) = true
    ∧ let cur := default makeDefault
                   (lookup_record (stored (recordSessions profileId gameId ss st))
                      profileId gameId) in
      sessionsPlayed cur = (sessionsPlayed old + Z.of_nat (length ss))%Z
      ∧ bestLevel cur = foldl Z.max (bestLevel old) (ss.*1)
      ∧ custom cur = custom old) as Hall.
  { induction ss as [|[l t] ss [IHw IH]] using rev_ind.
    - unfold recordSessions. cbn [foldl]. fold old.
      split; [done |]. cbn zeta. split_and!; [cbn; lia | done | done].
    - rewrite recordSessions_snoc. cbn [fst snd].
      destruct (recordSession_stored profileId gameId l t
                  (recordSessions profileId gameId ss st))
        as (st' & Hrec & Hstored & _).
      destruct (Hstored IHw) as [Hlook Hw'].
      rewrite Hrec. cbn [snd]. split; [done |].
      destruct IH as (IH1 & IH2 & IH3).
      rewrite Hlook, fmap_app, length_app.
      change ([(l, t)].*1) with [l]. rewrite (foldl_snoc Z.max).
      cbn [default from_option id sessionsPlayed bestLevel custom length fst].
      rewrite IH1, IH2, IH3.
      split_and!; [lia | done | done]. }
  destruct (Hall sessions) as [Hws (H1 & H2 & H3)].
  rewrite recordSessions_snoc. cbn [fst snd].
  destruct (recordSession_stored profileId gameId level now
              (recordSessions profileId gameId sessions st))
    as (st' & Hrec & Hstored & _).
  destruct (Hstored Hws) as [Hlook _].
  rewrite Hrec. cbn [snd]. eexists. split; [exact Hlook |]. cbn.
  rewrite foldl_snoc, <- H2.
  assert (∀ ls (b : Z), (b <= foldl Z.max b ls)%Z) as Hmono.
  { induction ls as [|x ls IHls]; intros b; cbn; [lia |].
    etrans; [| apply IHls]. lia. }
  split_and!; try done; try lia.
  rewrite H2. pose proof (Hmono (sessions.*1) (bestLevel old)). lia.
Qed.

End ProgressTheorems.

(** ** Game registry: what a history of calls leaves *)

Section JsMapMore.
Context {V : Type}.
Implicit Types (m : JsMap.t V) (k : string) (v : V).

Lemma jsmap_get_elem_of m k v :
  NoDup (JsMap.keys m) → (k, v) ∈ m → JsMap.get k m = Some v.
Proof.
  unfold JsMap.keys. induction m as [|[k' v'] m IH]; intros Hnd Hin.
  - by apply elem_of_nil in Hin.
  - rewrite fmap_cons in Hnd. apply NoDup_cons in Hnd as [Hnin Hnd].
    apply elem_of_cons in Hin as [[= -> ->] | Hin]; cbn.
    + by rewrite decide_True.
    + rewrite decide_False; [by apply IH |].
      intros ->. apply Hnin. apply list_elem_of_fmap. by exists (k, v).
Qed.

Lemma jsmap_get_Some_elem_of m k v : JsMap.get k m = Some v → (k, v) ∈ m.
Proof.
  induction m as [|[k' v'] m IH]; cbn; [done |].
  destruct (decide (k' = k)) as [-> | Hne].
  - intros [= ->]. by left.
  - intros H. right. by apply IH.
Qed.

Lemma jsmap_Forall_set (P : string * V → Prop) m k v :
  Forall P m → P (k, v) → Forall P (JsMap.set k v m).
Proof.
  induction 1 as [|[k' v'] m Hk Hm IH]; intros HP; cbn.
  - by repeat constructor.
  - case_decide; constructor; auto.
Qed.

End JsMapMore.

Section RegistryTheorems.
Import GameRegistry.
Implicit Types (R : Registry) (config g : GameConfig) (c : Category).

Lemma run_games_entries cs R :
  Forall entry_ok (games R) → Forall entry_ok (games (run cs R)).
Proof.
  intros H. induction cs as [|x cs IH] using rev_ind; [done |].
  rewrite run_snoc. destruct x as [config | cid l i col]; cbn; [| done].
  unfold register, throw. destruct (rejected config) eqn:Hr; [done |].
  apply rejected_false_iff in Hr as Hid. destruct Hid as (i & Hi & _).
  cbn. rewrite Hi. cbn. apply jsmap_Forall_set; [done |]. by split.
Qed.

Lemma run_games_NoDup cs R :
  NoDup (JsMap.keys (games R)) → NoDup (JsMap.keys (games (run cs R))).
Proof.
  intros H. induction cs as [|x cs IH] using rev_ind; [done |].
  rewrite run_snoc. destruct x as [config | cid l i col]; cbn; [| done].
  unfold register, throw. destruct (rejected config); [done |].
  cbn. by apply jsmap_NoDup_set.
Qed.

Lemma run_game_keys_order cs :
  JsMap.keys (games (run cs initial)) = first_registrations (registered_games cs).
Proof.
  induction cs as [|x cs IH] using rev_ind; [done |].
  rewrite run_snoc. unfold registered_games in *. rewrite omap_app.
  destruct x as [config | cid l i col]; cbn [perform omap list_omap].
  - unfold register, throw. destruct (rejected config) eqn:Hr; cbn [snd].
    + by rewrite app_nil_r.
    + apply rejected_false_iff in Hr as (i & Hi & _). rewrite Hi.
      cbn [snd games default from_option]. unfold Datatypes.id.
      rewrite jsmap_keys_set, IH, first_registrations_snoc.
      destruct (decide (i ∈ omap _ cs)) as [Hin | Hnin].
      * rewrite decide_True; [done | by apply elem_of_first_registrations].
      * rewrite decide_False; [done | by rewrite elem_of_first_registrations].
  - cbn. by rewrite app_nil_r.
Qed.

Lemma entries_ids (m : JsMap.t GameConfig) :
  Forall entry_ok m → id <$> m.*2 = Some <$> m.*1.
Proof.
  induction 1 as [|[k g] m [Hk _] _ IH]; [done |].
  rewrite !fmap_cons. cbn [fst snd] in *. by rewrite Hk, IH.
Qed.

(** X13.  Whatever calls were made, every game of the registry has
    passed the guard (it has a non-empty id, an [init] and a [destroy]),
    [get] of its id gives that very game, and no two games of the
    registry have the same id. *)
Theorem registered_games_are_valid_and_unique cs :
  (∀ g, g ∈ getAll (run cs initial) →
        ∃ i, id g = Some i ∧ i ≠ ""
             ∧ is_Some (init g) ∧ is_Some (destroy g)
             ∧ get i (run cs initial) = Some g)
  ∧ NoDup (id <$> getAll (run cs initial)).
Proof.
  pose proof (run_games_entries cs initial ltac:(constructor)) as Hentries.
  pose proof (run_games_NoDup cs initial ltac:(constructor)) as Hnd.
  split.
  - intros g Hg. unfold getAll, JsMap.values in Hg.
    apply list_elem_of_fmap in Hg as ([k g'] & -> & Hin). cbn.
    rewrite Forall_forall in Hentries.
    destruct (Hentries _ Hin) as [Hid Hr]. cbn in Hid, Hr.
    apply rejected_false_iff in Hr as (i & Hi & Hne & Hinit & Hdestroy).
    exists i. split_and!; try done.
    assert (i = k) as -> by congruence.
    unfold get. by apply jsmap_get_elem_of.
  - unfold getAll, JsMap.values.
    rewrite (entries_ids _ Hentries).
    apply NoDup_fmap_2; [apply _ | done].
Qed.

(** X14.  The last registration wins, and the first one fixes the
    place.  After any history of calls, [get] of an id gives the config
    of the last call that registered that id with success (nothing when
    there was none), however many configs were registered under it
    before; and [getAll] lists the games in the order in which their ids
    were first registered. *)
Theorem get_gives_last_registration cs :
  (∀ gid, get gid (run cs initial) = last_registered gid cs)
  ∧ id <$> getAll (run cs initial)
    = Some <$> first_registrations (registered_games cs).
Proof.
  split.
  - intros gid. induction cs as [|x cs IH] using rev_ind; [done |].
    rewrite run_snoc. unfold last_registered in *. rewrite omap_app.
    destruct x as [config | cid l i col]; cbn [perform omap list_omap].
    + unfold register, throw. destruct (rejected config) eqn:Hr; cbn [snd].
      * by rewrite app_nil_r.
      * apply rejected_false_iff in Hr as (i & Hi & _). rewrite Hi.
        unfold get in *. cbn [snd games default from_option].
        unfold Datatypes.id.
        destruct (decide (Some i = Some gid)) as [[= ->] | Hne].
        -- cbn. by rewrite jsmap_get_set_eq, last_snoc.
        -- cbn. rewrite app_nil_r, jsmap_get_set_ne; [done | congruence].
    + cbn. by rewrite app_nil_r.
  - rewrite <- run_game_keys_order.
    pose proof (run_games_entries cs initial ltac:(constructor)) as Hentries.
    unfold getAll, JsMap.values, JsMap.keys.
    by apply entries_ids.
Qed.

End RegistryTheorems.

Section RegistryMenu.
Import GameRegistry.
Implicit Types (R : Registry) (config g : GameConfig) (c : Category).

Lemma jsmap_set_new {V} (m : JsMap.t V) k v :
  k ∉ JsMap.keys m → JsMap.set k v m = m ++ [(k, v)].
Proof.
  unfold JsMap.keys. induction m as [|[k' v'] m IH]; intros Hnin; [done |].
  cbn. rewrite fmap_cons in Hnin. apply not_elem_of_cons in Hnin as [Hne Hnin].
  rewrite decide_False by done. by rewrite IH.
Qed.

(** X15.  [addCategory] and [getCategoryInfo].  After [addCategory],
    [getCategoryInfo] of that id gives the new category, for every
    other id what it gave before, and the games are untouched.  A
    category may be added after its games: when the id is new, the
    populated categories are the former ones, followed by the new
    category if a game of that category is already registered. *)
Theorem addCategory_then_getCategoryInfo cid lbl ic col R :
  ∃ R', addCategory cid lbl ic col R = (Normal tt, R')
    ∧ getCategoryInfo cid R' = Some (mkCategory cid lbl ic col)
    ∧ (∀ cid', cid' ≠ cid → getCategoryInfo cid' R' = getCategoryInfo cid' R)
    ∧ getAll R' = getAll R
    ∧ (cid ∉ JsMap.keys (categories R) →
         getCategories R' =
           getCategories R ++
           match getByCategory cid R with
           | [] => []
           | _ :: _ => [mkCategory cid lbl ic col]
           end).
Proof.
  eexists. split; [reflexivity |]. unfold getCategoryInfo. cbn [categories].
  split_and!.
  - apply jsmap_get_set_eq.
  - intros cid' Hne. by apply jsmap_get_set_ne.
  - done.
  - intros Hnew. unfold getCategories. cbn [categories].
    rewrite jsmap_set_new by done. unfold JsMap.values.
    rewrite fmap_app, filter_app. f_equal.
    cbn [fmap list_fmap snd].
    change (filter ?P [?x]) with (filter P (x :: [])).
    unfold getByCategory, getAll. cbn [games cat_id].
    destruct (filter (λ g, category g = cid) (JsMap.values (games R))) eqn:E.
    + rewrite filter_cons_False; [done |]. cbn [cat_id]. rewrite E. cbn. lia.
    + rewrite filter_cons_True; [done |]. cbn [cat_id]. rewrite E. cbn. lia.
Qed.

Lemma run_categories_NoDup cs : NoDup (JsMap.keys (categories (run cs initial))).
Proof.
  rewrite (run_category_keys cs initial initial_category_keys_NoDup).
  apply NoDup_first_registrations.
Qed.

Lemma keyed_by_id_elem_of (m : JsMap.t Category) c :
  keyed_by_id m → c ∈ JsMap.values m → (cat_id c, c) ∈ m.
Proof.
  unfold keyed_by_id, JsMap.values. rewrite Forall_forall.
  intros Hkeyed ([k c'] & -> & Hin)%list_elem_of_fmap.
  pose proof (Hkeyed _ Hin) as Hk. cbn [fst snd] in *. by rewrite Hk.
Qed.

(** X16.  What the menu shows can be opened.  After any history of
    calls, for every category that [getCategories] returns,
    [getCategoryInfo] of its id gives that category and its list of
    games is not empty; every game of that list has an id whose [get]
    gives that game.  The games that can be reached in this way are
    exactly the registered games whose category is a registered
    category: a game of an unknown category is on no list of the
    menu. *)
Theorem menu_entries_resolve cs :
  (∀ c, c ∈ getCategories (run cs initial) →
        getCategoryInfo (cat_id c) (run cs initial) = Some c
        ∧ getByCategory (cat_id c) (run cs initial) ≠ []
        ∧ ∀ g, g ∈ getByCategory (cat_id c) (run cs initial) →
               ∃ i, id g = Some i ∧ get i (run cs initial) = Some g)
  ∧ (∀ g, (∃ c, c ∈ getCategories (run cs initial)
                ∧ g ∈ getByCategory (cat_id c) (run cs initial))
          ↔ g ∈ getAll (run cs initial)
            ∧ category g ∈ JsMap.keys (categories (run cs initial))).
Proof.
  pose proof (run_keyed_by_id cs initial initial_keyed_by_id) as Hkeyed.
  pose proof (run_categories_NoDup cs) as Hnd.
  pose proof (run_games_entries cs initial ltac:(constructor)) as Hentries.
  pose proof (run_games_NoDup cs initial ltac:(constructor)) as Hgnd.
  split.
  - intros c Hc. apply elem_of_getCategories in Hc as [Hc (g0 & Hg0 & Hcat0)].
    split_and!.
    + unfold getCategoryInfo. apply jsmap_get_elem_of; [done |].
      by apply keyed_by_id_elem_of.
    + intros Hnil.
      assert (g0 ∈ getByCategory (cat_id c) (run cs initial)) as Hin
        by (by apply list_elem_of_filter).
      rewrite Hnil in Hin. by apply elem_of_nil in Hin.
    + intros g [_ Hg]%list_elem_of_filter.
      unfold getAll, JsMap.values in Hg.
      apply list_elem_of_fmap in Hg as ([k g'] & -> & Hin).
      rewrite Forall_forall in Hentries. destruct (Hentries _ Hin) as [Hid _].
      cbn in *. exists k. split; [done |].
      unfold get. by apply jsmap_get_elem_of.
  - intros g. split.
    + intros (c & Hc & Hg). apply list_elem_of_filter in Hg as [Hcat Hg].
      split; [done |]. rewrite Hcat.
      apply elem_of_getCategories in Hc as [Hc _].
      apply keyed_by_id_elem_of in Hc; [| done].
      unfold JsMap.keys. apply list_elem_of_fmap. by exists (cat_id c, c).
    + intros [Hg Hcat]. unfold JsMap.keys in Hcat.
      apply list_elem_of_fmap in Hcat as ([k c] & Hk & Hin). cbn in Hk.
      unfold keyed_by_id in Hkeyed. rewrite Forall_forall in Hkeyed.
      pose proof (Hkeyed _ Hin) as Hck. cbn in Hck.
      exists c. split.
      * apply elem_of_getCategories. split.
        -- unfold JsMap.values. apply list_elem_of_fmap. by exists (k, c).
        -- exists g. split; [done | congruence].
      * apply list_elem_of_filter. split; [congruence | done].
Qed.

End RegistryMenu.

(** ** Session controller: flows and what it never does *)

Section AppTheorems.
Import App.
Implicit Types (w : World) (r : RenderFn) (g : GameRegistry.GameConfig).

Lemma withProfiles_getActiveProfile_value w :
  withProfiles ProfileManager.getActiveProfile w
  = (fst (ProfileManager.getActiveProfile (profileStore w)), w).
Proof.
  unfold withProfiles. rewrite getActiveProfile_stored. by destruct w.
Qed.

Lemma renderMenu_result w :
  renderMenu w =
    showScreen
      (match fst (ProfileManager.getActiveProfile (profileStore w)) with
       | Normal (Some p) => RenderMenu p (GameRegistry.getCategories (registry w))
       | _ => RenderWelcome
       end) w.
Proof.
  unfold renderMenu, bind. rewrite withProfiles_getActiveProfile_value.
  destruct (withProfiles_getActiveProfile w) as (o & Ho).
  rewrite withProfiles_getActiveProfile_value in Ho.
  injection Ho as Ho. rewrite Ho. by destruct o.
Qed.

Lemma showScreen_result r w :
  ∃ w', showScreen r w = (Normal tt, w')
    ∧ profileStore w' = profileStore w
    ∧ registry w' = registry w
    ∧ (timers w = [] → screen (timerFires w') = Some r).
Proof.
  eexists. split; [reflexivity |].
  destruct w as [R ps ag ts sc cs]. unfold timerFires.
  destruct ag; cbn; (split; [done |]); (split; [done |]);
    intros ->; by destruct r.
Qed.



(** X19.  The profile switcher.  The entry of a listed profile [q]
    carries the id field of [q] in [data-id], and its click handler
    hands that id to [setActiveProfile].  When the id is not empty, is
    made of the characters of generated ids and is the key of a stored
    profile [p] (which is [q] itself when [q] is stored under its own
    id), the click shows the menu of [p] when the timer fires, if the
    store takes the write; if it does not, the store is unchanged and
    the menu shown is the one of the profile that was active before. *)
Theorem profile_switch_flow k q p w :
  timers w = [] →
  ProfileManager.profiles (ProfileManager.stored (profileStore w)) !! k = Some q →
  ProfileManager.profiles (ProfileManager.stored (profileStore w))
    !! ProfileManager.p_id q = Some p →
  ProfileManager.p_id q ≠ "" →
  attr_safe (ProfileManager.p_id q) = true →
  (ProfileManager.p_id q = k → p = q)
  ∧ ∃ w', onProfileItemClick (ProfileManager.p_id q) w = (Normal tt, w')
    ∧ (Storage.writable (profileStore w) = true →
         screen (timerFires w')
         = Some (RenderMenu p (GameRegistry.getCategories (registry w))))
    ∧ (Storage.writable (profileStore w) = false →
         profileStore w' = profileStore w
         ∧ ∀ a, ProfileManager.getActiveProfile (profileStore w)
                  = (Normal (Some a), profileStore w) →
                screen (timerFires w')
                = Some (RenderMenu a (GameRegistry.getCategories (registry w)))).
Proof.
  intros Ht Hq Hp Hne _. split; [intros Hk; rewrite Hk in Hp; congruence |].
  unfold onProfileItemClick.
  unfold bind at 1. unfold withProfiles at 1.
  rewrite (setActiveProfile_stored _ p _ Hp).
  rewrite renderMenu_result. cbn [profileStore registry].
  match goal with |- context [showScreen ?r ?w1] =>
    destruct (showScreen_result r w1) as (w' & Hshow & Hstore & _ & Hscreen)
  end.
  exists w'. split; [exact Hshow |]. cbn [profileStore timers] in *.
  split.
  - intros Hw. rewrite (Hscreen Ht), Hw.
    rewrite getActiveProfile_stored, stored_saved.
    cbn [ProfileManager.active ProfileManager.profiles fst].
    rewrite Hp. by destruct (ProfileManager.p_id q).
  - intros Hw. rewrite Hw in Hstore, Hscreen. split; [exact Hstore |].
    intros a Ha. rewrite (Hscreen Ht), Ha. done.
Qed.

End AppTheorems.

Section AppInvariants.
Import App.
Implicit Types (w : World) (r : RenderFn) (g : GameRegistry.GameConfig).

Lemma destroys_mounted_from_snoc acc cs (c : Call) :
  destroys_mounted_from acc (cs ++ [c]) ↔
  destroys_mounted_from acc cs
  ∧ match c with
    | Init _ => True
    | Destroy g =>
        g ∈ foldl (fun acc c => match c with
                                | Init g => acc ++ [g]
                                | Destroy g => remove_first g acc
                                end) acc cs
    end.
Proof.
  revert acc. induction cs as [|c' cs IH]; intros acc.
  - destruct c; cbn; tauto.
  - destruct c'; cbn [app destroys_mounted_from foldl]; rewrite IH; tauto.
Qed.

(** The held module is mounted and no [destroy] went to a module that
    was not. *)
Lemma step_keeps_pairing (e : event) w :
  destroys_mounted (calls w) →
  (∀ g, activeGame w = Some g → g ∈ mounted (calls w)) →
  destroys_mounted (calls (step e w))
  ∧ (∀ g, activeGame (step e w) = Some g → g ∈ mounted (calls (step e w))).
Proof.
  intros Hd Hheld.
  assert (e = TimerFires ∨ e ≠ TimerFires) as [-> | He]
    by (destruct e; auto; right; discriminate).
  - cbn [step]. unfold timerFires.
    destruct w as [R ps ag ts sc cs]. cbn -[mounted] in *.
    destruct ts as [|r ts]; [done |].
    destruct r; cbn -[mounted]; try done.
    split.
    + apply destroys_mounted_from_snoc. done.
    + intros g' [= <-]. rewrite mounted_snoc. apply elem_of_app. right. by left.
  - destruct (transitions_use_showScreen e w He) as [[r Hr] | (gid & _ & _ & Hr)];
      rewrite Hr; [| done].
    destruct w as [R ps ag ts sc cs]. unfold showScreen. cbn -[mounted] in *.
    destruct ag as [g|]; cbn -[mounted]; [| done].
    split; [| done].
    apply destroys_mounted_from_snoc. split; [done |]. by apply Hheld.
Qed.

(** X20.  What the controller never does.  Starting with no game held
    and no call made, after any sequence of transition calls and
    timers, in any interleaving, every [destroy] went to a module that
    was mounted at that moment (no module is destroyed before its
    [init], and none more often than it was initialised), and the
    module held in [activeGame] is a mounted one. *)
Theorem controller_destroys_only_mounted_modules es w :
  calls w = [] → activeGame w = None →
  destroys_mounted (calls (run es w))
  ∧ (∀ g, activeGame (run es w) = Some g → g ∈ mounted (calls (run es w))).
Proof.
  intros Hc Ha. induction es as [|e es IH] using rev_ind.
  - cbn. rewrite Hc, Ha. done.
  - unfold run in *. rewrite foldl_snoc.
    destruct IH as [IH1 IH2]. by apply step_keeps_pairing.
Qed.

(** X21.  Leaving a game.  While a game is running and no timer is
    pending, [onExit] (which is [renderMenu]) calls [destroy] on the
    game once and at once, drops the reference, and when the timer
    fires the menu or the welcome screen is shown with no module
    mounted. *)
Theorem exit_tears_the_game_down w g :
  activeGame w = Some g → timers w = [] → mounted (calls w) = [g] →
  calls (snd (renderMenu w)) = calls w ++ [Destroy g]
  ∧ activeGame (snd (renderMenu w)) = None
  ∧ screen (snd (renderMenu w)) = screen w
  ∧ let w' := run (settled CallRenderMenu) w in
    calls w' = calls w ++ [Destroy g]
    ∧ activeGame w' = None
    ∧ mounted (calls w') = []
    ∧ (screen w' = Some RenderWelcome
       ∨ ∃ p, screen w'
              = Some (RenderMenu p (GameRegistry.getCategories (registry w)))).
Proof.
  intros Hg Ht Hm. unfold settled, run. cbn [foldl step].
  rewrite renderMenu_result.
  set (r := match fst (ProfileManager.getActiveProfile (profileStore w)) with
            | Normal (Some p) => RenderMenu p (GameRegistry.getCategories (registry w))
            | _ => RenderWelcome
            end).
  assert (r = RenderWelcome
          ∨ ∃ p, r = RenderMenu p (GameRegistry.getCategories (registry w))) as Hr.
  { subst r. destruct (fst (ProfileManager.getActiveProfile (profileStore w)))
      as [[p|]|err]; eauto. }
  clearbody r.
  destruct w as [R ps ag ts sc cs]. cbn -[mounted] in Hg, Ht, Hm, Hr. subst.
  unfold showScreen, timerFires. cbn -[mounted].
  split; [done |]. split; [done |]. split; [done |].
  destruct Hr as [-> | [p ->]]; cbn -[mounted];
    rewrite mounted_snoc, Hm; cbn; rewrite decide_True by done; eauto 10.
Qed.

End AppInvariants.

(** ** Game helpers *)

Section ShuffleTheorems.
Context {A : Type}.
Implicit Types (a arr : list A) (draw : nat → nat).
Import Games.

Lemma swap_Permutation a i j : swap a i j ≡ₚ a.
Proof.
  unfold swap. destruct (a !! i) as [x|] eqn:Hi; [| done].
  destruct (a !! j) as [y|] eqn:Hj; [| done].
  by apply Permutation_insert_swap.
Qed.

Lemma shuffle_from_Permutation i draw a : shuffle_from i draw a ≡ₚ a.
Proof.
  revert a. induction i as [|i IH]; intros a; [done |].
  cbn. rewrite IH. apply swap_Permutation.
Qed.

Lemma shuffle_Permutation draw arr : shuffle draw arr ≡ₚ arr.
Proof. unfold shuffle. apply shuffle_from_Permutation. Qed.

End ShuffleTheorems.

Section DeckTheorems.
Context {A : Type}.
Implicit Types (arr : list A) (draw : nat → nat).
Import Games.

(** X22.  [shuffle] (Fisher-Yates) returns a permutation of its
    argument, whatever the draws in range ([j] between 0 and [i], as
    the code draws it): nothing is lost and nothing doubled.
    So the deck a game builds by shuffling the indices of its table
    holds every index of the table exactly once, and every position of
    the deck leads to an entry of the table. *)
Theorem shuffle_is_a_permutation draw arr :
  in_range draw →
  shuffle draw arr ≡ₚ arr
  ∧ length (shuffle draw arr) = length arr
  ∧ NoDup (shuffle draw (indices arr))
  ∧ (∀ i, i ∈ shuffle draw (indices arr) ↔ (i < length arr)%nat)
  ∧ (∀ pos, (pos < length arr)%nat →
       ∃ i x, shuffle draw (indices arr) !! pos = Some i ∧ arr !! i = Some x).
Proof.
  intros _.
  assert (∀ B (l : list B), shuffle draw l ≡ₚ l) as Hperm
    by (intros B l; apply shuffle_Permutation).
  split_and!.
  - apply Hperm.
  - by rewrite Hperm.
  - rewrite Hperm. apply NoDup_seq.
  - intros i. rewrite Hperm. unfold indices. rewrite elem_of_seq. lia.
  - intros pos Hpos.
    assert (pos < length (shuffle draw (indices arr)))%nat as Hlt.
    { rewrite Hperm. unfold indices. by rewrite length_seq. }
    apply lookup_lt_is_Some in Hlt as [i Hi]. exists i.
    assert (i ∈ shuffle draw (indices arr)) as Hin
      by (apply list_elem_of_lookup; eauto).
    rewrite Hperm in Hin. unfold indices in Hin. apply elem_of_seq in Hin.
    assert (i < length arr)%nat as Hi' by lia.
    apply lookup_lt_is_Some in Hi' as [x Hx]. eauto.
Qed.

End DeckTheorems.

Section GameTheorems.
Import Games.

Lemma ALL_SHAPES_NoDup : NoDup ShapeBuilder.ALL_SHAPES.
Proof. apply (bool_decide_unpack _). by vm_compute. Qed.

Lemma other_shapes_many shapeName :
  (9 ≤ length (filter (fun s => s ≠ shapeName) ShapeBuilder.ALL_SHAPES))%nat.
Proof.
  destruct (decide (shapeName ∈ ShapeBuilder.ALL_SHAPES)) as [Hin | Hnin].
  - unfold ShapeBuilder.ALL_SHAPES in *.
    repeat (apply elem_of_cons in Hin as [-> | Hin]; [vm_compute; lia |]).
    by apply elem_of_nil in Hin.
  - rewrite filter_other_id by done. vm_compute. lia.
Qed.

(** X23.  The choices of the shape builder.  For every shape name and
    all draws in range, [buildChoices] returns three different names: the right
    one and two wrong ones, both taken from the shapes of the game and
    both different from the right one. *)
Theorem shape_choices_are_three_different shapeName draw1 draw2 :
  in_range draw1 → in_range draw2 →
  ∃ w1 w2,
    ShapeBuilder.buildChoices shapeName draw1 draw2 ≡ₚ [shapeName; w1; w2]
    ∧ NoDup (ShapeBuilder.buildChoices shapeName draw1 draw2)
    ∧ w1 ≠ shapeName ∧ w2 ≠ shapeName ∧ w1 ≠ w2
    ∧ w1 ∈ ShapeBuilder.ALL_SHAPES ∧ w2 ∈ ShapeBuilder.ALL_SHAPES.
Proof.
  intros _ _. unfold ShapeBuilder.buildChoices.
  set (others := filter (fun s => s ≠ shapeName) ShapeBuilder.ALL_SHAPES).
  set (mixed := shuffle draw1 others).
  assert (mixed ≡ₚ others) as Hmixed
    by apply shuffle_Permutation.
  assert (NoDup mixed) as Hnd.
  { rewrite Hmixed. apply NoDup_filter, ALL_SHAPES_NoDup. }
  assert (9 ≤ length mixed)%nat as Hlen.
  { rewrite Hmixed. apply other_shapes_many. }
  destruct mixed as [|w1 [|w2 rest]] eqn:E; [cbn in Hlen; lia .. |].
  assert (∀ w, w ∈ [w1; w2] → w ≠ shapeName ∧ w ∈ ShapeBuilder.ALL_SHAPES) as Hw.
  { intros w Hin.
    assert (w ∈ others) as Ho.
    { rewrite <- Hmixed. apply elem_of_cons in Hin as [-> | Hin]; [by left |].
      apply list_elem_of_singleton in Hin as ->. right. by left. }
    by apply list_elem_of_filter in Ho. }
  destruct (Hw w1 ltac:(by left)) as [H1 H1'].
  destruct (Hw w2 ltac:(right; by left)) as [H2 H2'].
  assert (w1 ≠ w2) as H12.
  { apply NoDup_cons in Hnd as [Hnin _]. intros ->. apply Hnin. by left. }
  exists w1, w2. cbn [take].
  assert (shuffle draw2 [shapeName; w1; w2] ≡ₚ [shapeName; w1; w2]) as Hfinal
    by apply shuffle_Permutation.
  split_and!; try done.
  rewrite Hfinal. repeat constructor; rewrite ?elem_of_cons, ?elem_of_nil;
    intros H; repeat destruct H as [H | H]; congruence.
Qed.

(** X24.  The lily pads of Number Hop, for a step and a level of 1 or
    more and products that stay in the range where doubles are exact.
    [generateSequence] gives five numbers, the pad of index [i] being
    [step * (5 * (level - 1) + i + 1)]; the sequences of the levels 1
    to [n], put one after the other, are the first [5 * n] multiples of
    [step], each once and in order: a level starts one step after the
    goal of the level before. *)
Theorem generateSequence_tiles_the_multiples step :
  (1 ≤ step)%Z →
  (∀ level,
     (1 ≤ level)%Z →
     JsNumber.exact (step * (5 * level)) →
     NumberHop.generateSequence step level =
       [ step * (5 * (level - 1) + 1); step * (5 * (level - 1) + 2);
         step * (5 * (level - 1) + 3); step * (5 * (level - 1) + 4);
         step * (5 * (level - 1) + 5) ]%Z)
  ∧ (∀ n : nat,
       JsNumber.exact (step * (5 * Z.of_nat n)) →
       concat (NumberHop.generateSequence step <$> seqZ 1 (Z.of_nat n))
       = (fun k => step * k)%Z <$> seqZ 1 (5 * Z.of_nat n)).
Proof.
  intros _.
  assert (∀ level,
     NumberHop.generateSequence step level =
       [ step * (5 * (level - 1) + 1); step * (5 * (level - 1) + 2);
         step * (5 * (level - 1) + 3); step * (5 * (level - 1) + 4);
         step * (5 * (level - 1) + 5) ]%Z) as Hseq.
  { intros level. unfold NumberHop.generateSequence.
    change (seqZ 0 5) with [0; 1; 2; 3; 4]%Z. cbn [fmap list_fmap].
    repeat (apply (f_equal2 (@cons Z)); [lia |]). reflexivity. }
  split; [intros level _ _; apply Hseq |].
  intros n _.
  induction n as [|n IH]; [done |].
  rewrite seqZ_S, fmap_app, concat_app, IH. cbn [fmap list_fmap concat].
  rewrite app_nil_r, Hseq.
  replace (5 * Z.of_nat (S n))%Z with (5 * Z.of_nat n + 5)%Z by lia.
  rewrite seqZ_app by lia. rewrite fmap_app. f_equal.
  replace (seqZ (1 + 5 * Z.of_nat n) 5)
    with ((fun i => 1 + 5 * Z.of_nat n + i)%Z <$> [0; 1; 2; 3; 4]%Z).
  - cbn [fmap list_fmap].
    repeat (apply (f_equal2 (@cons Z)); [f_equal; lia |]). reflexivity.
  - apply list_eq. intros i. rewrite list_lookup_fmap.
    destruct (decide (i < 5)%nat) as [Hi | Hi].
    + rewrite lookup_seqZ_lt by lia.
      do 5 (destruct i as [|i]; [cbn; f_equal; lia |]). lia.
    + rewrite lookup_seqZ_ge by lia.
      by rewrite (lookup_ge_None_2 _ i) by (cbn; lia).
Qed.

End GameTheorems.

Section FeedMonsterTheorems.
Import Games Games.FeedMonster.
Local Open Scope Z_scope.

Lemma levelConfig_Some lvl :
  1 ≤ lvl →
  ∃ cfg, levelConfig lvl = Some cfg
         ∧ lv_min cfg = Z.min lvl 5
         ∧ lv_max cfg = Z.min lvl 5 + 1
         ∧ 2 ≤ lv_extra cfg ≤ 3.
Proof.
  intros Hlvl. unfold levelConfig.
  change (Z.of_nat (length LEVELS) - 1) with 4.
  assert (Z.min (lvl - 1) 4 = Z.min lvl 5 - 1) as -> by lia.
  assert (Z.min lvl 5 = 1 ∨ Z.min lvl 5 = 2 ∨ Z.min lvl 5 = 3
          ∨ Z.min lvl 5 = 4 ∨ Z.min lvl 5 = 5) as Hcases by lia.
  destruct Hcases as [-> | [-> | [-> | [-> | ->]]]];
    cbn; eexists; (split; [reflexivity |]); cbn; lia.
Qed.

Lemma feed_iter n s :
  celebrating s = false →
  Nat.iter n feedMonster s =
    {| level := level s; roundsInLevel := roundsInLevel s;
       roundsToAdvance := roundsToAdvance s; target := target s;
       fed := fed s + Z.of_nat n; celebrating := false |}.
Proof.
  intros Hc. induction n as [|n IH].
  - cbn. destruct s; cbn in *. subst. f_equal. lia.
  - change (Nat.iter (S n) feedMonster s)
      with (feedMonster (Nat.iter n feedMonster s)).
    rewrite IH. unfold feedMonster. cbn. f_equal. lia.
Qed.

Lemma startRound_Some d s :
  1 ≤ level s → 0 ≤ d ≤ 1 →
  ∃ cfg, levelConfig (level s) = Some cfg
    ∧ lv_min cfg = Z.min (level s) 5
    ∧ 2 ≤ lv_extra cfg ≤ 3
    ∧ startRound d s =
        Some ({| level := level s; roundsInLevel := roundsInLevel s;
                 roundsToAdvance := roundsToAdvance s;
                 target := d + lv_min cfg; fed := 0; celebrating := false |},
              d + lv_min cfg + lv_extra cfg).
Proof.
  intros Hlvl Hd. destruct (levelConfig_Some (level s) Hlvl) as (cfg & Hcfg & Hmin & _ & Hextra).
  exists cfg. split; [done |]. split; [done |]. split; [done |].
  unfold startRound. by rewrite Hcfg.
Qed.


(** X25.  The level table of Feed the Monster.  For a level of 1 or
    more [levelConfig] finds an entry: the levels above 5 get the entry
    of level 5, the smallest target is the level (at most 5), the
    largest one more, and 2 or 3 items are added to the tray.  For a
    level of 0 or less it finds nothing, and no round can start. *)
Theorem levelConfig_clamps_to_the_table lvl :
  (1 ≤ lvl →
     ∃ cfg, levelConfig lvl = Some cfg
            ∧ levelConfig (Z.min lvl 5) = Some cfg
            ∧ lv_min cfg = Z.min lvl 5
            ∧ lv_max cfg = Z.min lvl 5 + 1
            ∧ 2 ≤ lv_extra cfg ≤ 3)
  ∧ (lvl ≤ 0 →
       levelConfig lvl = None
       ∧ ∀ d s, level s = lvl → startRound d s = None).
Proof.
  split.
  - intros Hlvl.
    destruct (levelConfig_Some lvl Hlvl) as (cfg & Hcfg & Hmin & Hmax & Hextra).
    exists cfg. split; [done |]. split; [| done].
    destruct (decide (lvl ≤ 5)) as [Hle | Hgt].
    + by rewrite Z.min_l.
    + rewrite Z.min_r by lia. rewrite <- Hcfg. unfold levelConfig.
      rewrite !Z.min_r by (cbn; lia). done.
  - intros Hlvl.
    assert (levelConfig lvl = None) as Hnone.
    { unfold levelConfig. cbn zeta.
      assert ((Z.min (lvl - 1) (Z.of_nat (length LEVELS) - 1) <? 0) = true) as ->
        by (apply Z.ltb_lt; cbn; lia).
      done. }
    split; [done |]. intros d s <-. unfold startRound. by rewrite Hnone.
Qed.

(** X26.  A round of Feed the Monster.  At a level of 1 or more the
    round starts with a target between 1 and 6 that lies in the range
    of the level, nothing fed, and a tray holding 2 or 3 items more than
    the target.  After [n] items are fed, the check finds the answer
    right exactly when [n] is the target, too low when [n] is smaller
    and too high when it is larger. *)
Theorem round_is_won_by_feeding_the_target d s :
  1 ≤ level s → 0 ≤ d ≤ 1 →
  ∃ s1 items,
    startRound d s = Some (s1, items)
    ∧ Z.min (level s) 5 ≤ target s1 ≤ Z.min (level s) 5 + 1
    ∧ 1 ≤ target s1 ≤ 6
    ∧ fed s1 = 0
    ∧ target s1 + 2 ≤ items ≤ target s1 + 3
    ∧ level s1 = level s
    ∧ ∀ n : nat,
        checkAnswer (Nat.iter n feedMonster s1) =
          if decide (Z.of_nat n = target s1) then Correct
          else if decide (Z.of_nat n < target s1) then TooFew
          else TooMany.
Proof.
  intros Hlvl Hd.
  destruct (startRound_Some d s Hlvl Hd) as (cfg & _ & Hmin & Hextra & Hstart).
  eexists _, _. split; [exact Hstart |].
  cbn [target fed level]. split_and!; try lia.
  intros n. rewrite feed_iter by done. unfold checkAnswer.
  cbn [celebrating fed target]. rewrite Z.add_0_l.
  destruct (decide (Z.of_nat n = d + lv_min cfg)) as [-> | Hne].
  - by rewrite Z.eqb_refl.
  - rewrite (proj2 (Z.eqb_neq _ _) Hne).
    destruct (decide (Z.of_nat n < d + lv_min cfg)) as [Hlt | Hge].
    + by rewrite (proj2 (Z.ltb_lt _ _) Hlt).
    + by rewrite (proj2 (Z.ltb_ge _ _)) by lia.
Qed.





End FeedMonsterTheorems.

(** ** Instances of the further properties *)

Section FurtherInstances.
Local Open Scope Z_scope.

Lemma profile_store_without_document_witness :
  JsObject.plain "p_nobody"
  ∧ Storage.raw ProfileManager.KEY Samples.emptyStore = None
  ∧ ProfileManager.getActiveProfile Samples.emptyStore
      = (Normal None, Samples.emptyStore)
  ∧ ProfileManager.setActiveProfile "p_nobody" Samples.emptyStore
      = (Normal false, Samples.emptyStore).
Proof.
  assert (JsObject.plain "p_nobody") as Hplain by solve_plain.
  assert (Storage.raw ProfileManager.KEY Samples.emptyStore = None) as Hraw
    by reflexivity.
  split; [exact Hplain |]. split; [exact Hraw |].
  destruct (profile_store_without_document "p_nobody" Scenarios.rename
              Samples.emptyStore Hplain Hraw) as (Hactive & _ & Hset & _).
  split; [exact Hactive | exact Hset].
Defined.

Lemma setActiveProfile_then_getActiveProfile_witness :
  ProfileManager.profiles (ProfileManager.stored Samples.profileStore)
    !! "p_lr0fqi80a7f3c" = Some Samples.mia
  ∧ ∃ st', ProfileManager.setActiveProfile "p_lr0fqi80a7f3c" Samples.profileStore
           = (Normal true, st')
      ∧ ProfileManager.getActiveProfile st' = (Normal (Some Samples.mia), st').
Proof.
  assert (ProfileManager.profiles (ProfileManager.stored Samples.profileStore)
            !! "p_lr0fqi80a7f3c" = Some Samples.mia) as Hmia
    by (vm_compute; reflexivity).
  split; [exact Hmia |].
  destruct (setActiveProfile_then_getActiveProfile "p_lr0fqi80a7f3c" Samples.mia
              Samples.profileStore Hmia) as (st' & Hset & Hw & _).
  exists st'. split; [exact Hset |].
  destruct (Hw eq_refl) as (_ & _ & Hget). apply Hget. discriminate.
Defined.

Lemma createProfile_extends_listing_witness :
  Storage.writable Samples.emptyStore = true
  ∧ ProfileManager.profiles (ProfileManager.stored Samples.emptyStore)
      !! ProfileManager.generateId Samples.env = None
  ∧ ∃ p st' before after,
      ProfileManager.createProfile "Mia" (Some "🐼") Samples.env Samples.emptyStore
        = (Normal p, st')
      ∧ ProfileManager.getAllProfiles Samples.emptyStore
        = (Normal before, Samples.emptyStore)
      ∧ ProfileManager.getAllProfiles st' = (Normal after, st')
      ∧ length after = S (length before).
Proof.
  assert (ProfileManager.profiles (ProfileManager.stored Samples.emptyStore)
            !! ProfileManager.generateId Samples.env = None) as Hfresh
    by (vm_compute; reflexivity).
  split; [reflexivity |]. split; [exact Hfresh |].
  destruct (createProfile_extends_listing "Mia" (Some "🐼") Samples.env
              Samples.emptyStore eq_refl Hfresh)
    as (p & st' & before & after & Hc & Hb & Ha & _ & Hlen & _).
  exists p, st', before, after. auto.
Defined.

Lemma stored_profileStore :
  ProfileManager.stored Samples.profileStore = Samples.profilesData.
Proof. vm_compute. reflexivity. Qed.

Lemma run_keeps_profiles_keyed_by_id_witness :
  Forall ProfileManager.keeps_id Scenarios.profileCalls
  ∧ ProfileManager.keyed_by_id (ProfileManager.stored Samples.profileStore)
  ∧ ProfileManager.keyed_by_id
      (ProfileManager.stored
         (ProfileManager.run Scenarios.profileCalls Samples.profileStore)).
Proof.
  assert (Forall ProfileManager.keeps_id Scenarios.profileCalls) as Hops.
  { repeat constructor. }
  assert (ProfileManager.keyed_by_id
            (ProfileManager.stored Samples.profileStore)) as Hkeyed.
  { intros k p. rewrite stored_profileStore. cbn [ProfileManager.profiles Samples.profilesData].
    intros [<- <-]%lookup_singleton_Some. reflexivity. }
  split; [exact Hops |]. split; [exact Hkeyed |].
  exact (run_keeps_profiles_keyed_by_id Scenarios.profileCalls
           Samples.profileStore Hops Hkeyed).
Defined.

Lemma run_keeps_an_active_profile_witness :
  Forall ProfileManager.plain_call Scenarios.profileCalls
  ∧ ProfileManager.pointer_ok (ProfileManager.stored Samples.profileStore)
  ∧ ProfileManager.pointer_ok
      (ProfileManager.stored
         (ProfileManager.run Scenarios.profileCalls Samples.profileStore)).
Proof.
  assert (Forall ProfileManager.plain_call Scenarios.profileCalls) as Hplain.
  { repeat constructor; cbn [ProfileManager.plain_call]; solve_plain. }
  assert (ProfileManager.pointer_ok
            (ProfileManager.stored Samples.profileStore)) as Hok.
  { rewrite stored_profileStore. split; [by vm_compute |].
    intros a Ha. cbn [ProfileManager.active Samples.profilesData] in Ha.
    injection Ha as <-. exists Samples.mia. vm_compute. reflexivity. }
  split; [exact Hplain |]. split; [exact Hok |].
  exact (proj1 (run_keeps_an_active_profile Scenarios.profileCalls
                  Samples.profileStore Hplain Hok)).
Defined.

Lemma updateGameProgress_merges_and_reads_back_witness :
  JsObject.plain "p_lr0fqi80a7f3c" ∧ JsObject.plain "letter-safari"
  ∧ ∃ r st',
      ProgressManager.updateGameProgress "p_lr0fqi80a7f3c" "letter-safari"
        (ProgressManager.mkUpdates None (Some 2) None None None)
        "2024-01-05T09:31:00.000Z" Samples.progressStore = (Normal r, st')
      ∧ ProgressManager.currentLevel r = 2
      ∧ ProgressManager.bestLevel r = 1
      ∧ ProgressManager.getGameProgress "p_lr0fqi80a7f3c" "letter-safari" st'
        = (Normal r, st').
Proof.
  assert (JsObject.plain "p_lr0fqi80a7f3c") as Hp by solve_plain.
  assert (JsObject.plain "letter-safari") as Hg by solve_plain.
  split; [exact Hp |]. split; [exact Hg |].
  destruct (updateGameProgress_merges_and_reads_back "p_lr0fqi80a7f3c"
              "letter-safari"
              (ProgressManager.mkUpdates None (Some 2) None None None)
              "2024-01-05T09:31:00.000Z" Samples.progressStore Hp Hg)
    as (r & st' & Hupd & _ & Hcur & Hbest & _ & _ & Hread & _).
  exists r, st'. split; [exact Hupd |]. split; [exact Hcur |].
  split; [exact Hbest | exact (Hread eq_refl)].
Defined.

Lemma updateGameProgress_leaves_other_records_witness :
  JsObject.plain "p_lr0fqi80a7f3c" ∧ JsObject.plain "letter-safari"
  ∧ JsObject.plain "story-bubbles"
  ∧ ("p_lr0fqi80a7f3c", "story-bubbles") ≠ ("p_lr0fqi80a7f3c", "letter-safari")
  ∧ ProgressManager.lookup_record
      (ProgressManager.stored
         (snd (ProgressManager.updateGameProgress "p_lr0fqi80a7f3c" "letter-safari"
                 (ProgressManager.mkUpdates None (Some 2) None None None)
                 "2024-01-05T09:31:00.000Z" Samples.progressStore)))
      "p_lr0fqi80a7f3c" "story-bubbles"
    = ProgressManager.lookup_record (ProgressManager.stored Samples.progressStore)
        "p_lr0fqi80a7f3c" "story-bubbles".
Proof.
  assert (JsObject.plain "p_lr0fqi80a7f3c") as Hp by solve_plain.
  assert (JsObject.plain "letter-safari") as Hg by solve_plain.
  assert (JsObject.plain "story-bubbles") as Hg' by solve_plain.
  assert (("p_lr0fqi80a7f3c", "story-bubbles") ≠ ("p_lr0fqi80a7f3c", "letter-safari"))
    as Hne by discriminate.
  split; [exact Hp |]. split; [exact Hg |]. split; [exact Hg' |].
  split; [exact Hne |].
  exact (updateGameProgress_leaves_other_records "p_lr0fqi80a7f3c" "letter-safari"
           (ProgressManager.mkUpdates None (Some 2) None None None)
           "2024-01-05T09:31:00.000Z" Samples.progressStore
           "p_lr0fqi80a7f3c" "story-bubbles" Hp Hg Hp Hg' Hne).
Defined.

Lemma getAllProgress_agrees_with_getGameProgress_witness :
  JsObject.plain "p_lr0fqi80a7f3c" ∧ JsObject.plain "letter-safari"
  ∧ ∃ m, ProgressManager.getAllProgress "p_lr0fqi80a7f3c" Samples.progressStore
         = (Normal m, Samples.progressStore)
      ∧ m = ∅
      ∧ ProgressManager.getGameProgress "p_lr0fqi80a7f3c" "letter-safari"
          Samples.progressStore
        = (Normal ProgressManager.makeDefault, Samples.progressStore).
Proof.
  assert (JsObject.plain "p_lr0fqi80a7f3c") as Hp by solve_plain.
  assert (JsObject.plain "letter-safari") as Hg by solve_plain.
  split; [exact Hp |]. split; [exact Hg |].
  destruct (getAllProgress_agrees_with_getGameProgress "p_lr0fqi80a7f3c"
              Samples.progressStore Hp) as (m & Hall & _ & Hdefault & Hempty).
  assert (m = ∅) as Hm by (apply Hempty; by vm_compute).
  exists m. split; [exact Hall |]. split; [exact Hm |].
  apply Hdefault; [exact Hg |]. rewrite Hm. apply lookup_empty.
Defined.

Lemma recordSessions_totals_witness :
  JsObject.plain "p_lr0fqi80a7f3c" ∧ JsObject.plain "letter-safari"
  ∧ Storage.writable Samples.progressStore = true
  ∧ ∃ r,
      ProgressManager.lookup_record
        (ProgressManager.stored
           (ProgressManager.recordSessions "p_lr0fqi80a7f3c" "letter-safari"
              ([(3, "2024-01-05T09:31:00.000Z")] ++ [(2, "2024-01-05T09:32:00.000Z")])
              Samples.progressStore))
        "p_lr0fqi80a7f3c" "letter-safari" = Some r
      ∧ ProgressManager.currentLevel r = 2
      ∧ (ProgressManager.currentLevel r <= ProgressManager.bestLevel r).
Proof.
  assert (JsObject.plain "p_lr0fqi80a7f3c") as Hp by solve_plain.
  assert (JsObject.plain "letter-safari") as Hg by solve_plain.
  split; [exact Hp |]. split; [exact Hg |]. split; [reflexivity |].
  destruct (recordSessions_totals "p_lr0fqi80a7f3c" "letter-safari"
              [(3, "2024-01-05T09:31:00.000Z")] 2 "2024-01-05T09:32:00.000Z"
              Samples.progressStore Hp Hg eq_refl
              ltac:(by vm_compute) ltac:(by vm_compute))
    as (r & Hr & _ & Hcur & _ & _ & _ & _ & Hle).
  exists r. split; [exact Hr |]. split; [exact Hcur | exact Hle].
Defined.



Lemma profile_switch_flow_witness :
  App.timers Samples.world = []
  ∧ ProfileManager.profiles
      (ProfileManager.stored (App.profileStore Samples.world))
      !! "p_lr0fqi80a7f3c" = Some Samples.mia
  ∧ ProfileManager.p_id Samples.mia ≠ ""
  ∧ App.attr_safe (ProfileManager.p_id Samples.mia) = true
  ∧ ∃ w', App.onProfileItemClick (ProfileManager.p_id Samples.mia) Samples.world
          = (Normal tt, w')
      ∧ App.screen (App.timerFires w')
        = Some (App.RenderMenu Samples.mia
                  (GameRegistry.getCategories (App.registry Samples.world))).
Proof.
  assert (ProfileManager.profiles
            (ProfileManager.stored (App.profileStore Samples.world))
            !! "p_lr0fqi80a7f3c" = Some Samples.mia) as Hmia
    by (vm_compute; reflexivity).
  assert (ProfileManager.p_id Samples.mia ≠ "") as Hne by discriminate.
  assert (App.attr_safe (ProfileManager.p_id Samples.mia) = true) as Hsafe
    by reflexivity.
  split; [reflexivity |]. split; [exact Hmia |]. split; [exact Hne |].
  split; [exact Hsafe |].
  destruct (profile_switch_flow "p_lr0fqi80a7f3c" Samples.mia Samples.mia
              Samples.world eq_refl Hmia Hmia Hne Hsafe)
    as (_ & w' & Hclick & Hw & _).
  exists w'. split; [exact Hclick | exact (Hw eq_refl)].
Defined.

Lemma controller_destroys_only_mounted_modules_witness :
  App.calls Samples.world = []
  ∧ App.activeGame Samples.world = None
  ∧ App.destroys_mounted (App.calls (App.run Scenarios.hurried Samples.world)).
Proof.
  split; [reflexivity |]. split; [reflexivity |].
  exact (proj1 (controller_destroys_only_mounted_modules Scenarios.hurried
                  Samples.world eq_refl eq_refl)).
Defined.

Lemma exit_tears_the_game_down_witness :
  App.activeGame Scenarios.playing = Some Samples.letterSafari
  ∧ App.timers Scenarios.playing = []
  ∧ App.mounted (App.calls Scenarios.playing) = [Samples.letterSafari]
  ∧ App.calls (snd (App.renderMenu Scenarios.playing))
    = App.calls Scenarios.playing ++ [App.Destroy Samples.letterSafari]
  ∧ App.activeGame (snd (App.renderMenu Scenarios.playing)) = None.
Proof.
  split; [reflexivity |]. split; [reflexivity |]. split; [reflexivity |].
  destruct (exit_tears_the_game_down Scenarios.playing Samples.letterSafari
              eq_refl eq_refl eq_refl) as (Hcalls & Hactive & _).
  split; [exact Hcalls | exact Hactive].
Defined.

Lemma draw_in_range : Games.in_range Scenarios.draw.
Proof. intros i. unfold Scenarios.draw. lia. Qed.

Lemma shuffle_is_a_permutation_witness :
  Games.in_range Scenarios.draw
  ∧ Games.shuffle Scenarios.draw ["cat"; "dog"; "owl"] ≡ₚ ["cat"; "dog"; "owl"]
  ∧ NoDup (Games.shuffle Scenarios.draw (Games.indices ["cat"; "dog"; "owl"])).
Proof.
  split; [exact draw_in_range |].
  destruct (shuffle_is_a_permutation Scenarios.draw ["cat"; "dog"; "owl"]
              draw_in_range) as (Hperm & _ & Hnd & _).
  split; [exact Hperm | exact Hnd].
Defined.

Lemma shape_choices_are_three_different_witness :
  Games.in_range Scenarios.draw
  ∧ ∃ w1 w2,
      Games.ShapeBuilder.buildChoices "circle" Scenarios.draw Scenarios.draw
        ≡ₚ ["circle"; w1; w2]
      ∧ w1 ≠ "circle" ∧ w2 ≠ "circle" ∧ w1 ≠ w2.
Proof.
  split; [exact draw_in_range |].
  destruct (shape_choices_are_three_different "circle" Scenarios.draw Scenarios.draw
              draw_in_range draw_in_range)
    as (w1 & w2 & Hperm & _ & H1 & H2 & H12 & _).
  exists w1, w2. auto.
Defined.

Lemma generateSequence_tiles_the_multiples_witness :
  (1 ≤ 2)%Z
  ∧ Games.NumberHop.generateSequence 2 1 = [2; 4; 6; 8; 10]
  ∧ concat (Games.NumberHop.generateSequence 2 <$> seqZ 1 (Z.of_nat 2))
    = (fun k => 2 * k) <$> seqZ 1 (5 * Z.of_nat 2).
Proof.
  assert (1 ≤ 2)%Z as Hstep by lia.
  split; [exact Hstep |].
  destruct (generateSequence_tiles_the_multiples 2 Hstep) as [Hseq Hall].
  split.
  - exact (Hseq 1 ltac:(lia) ltac:(by vm_compute)).
  - exact (Hall 2%nat ltac:(by vm_compute)).
Defined.

Lemma round_is_won_by_feeding_the_target_witness :
  1 ≤ Games.FeedMonster.level (Games.FeedMonster.initial ProgressManager.makeDefault)
  ∧ 0 ≤ 1 ≤ 1
  ∧ ∃ s1 items,
      Games.FeedMonster.startRound 1
        (Games.FeedMonster.initial ProgressManager.makeDefault) = Some (s1, items)
      ∧ 1 ≤ Games.FeedMonster.target s1 ≤ 6
      ∧ Games.FeedMonster.target s1 + 2 ≤ items ≤ Games.FeedMonster.target s1 + 3.
Proof.
  assert (1 ≤ Games.FeedMonster.level
                (Games.FeedMonster.initial ProgressManager.makeDefault)) as Hlvl
    by (cbn; lia).
  assert (0 ≤ 1 ≤ 1) as Hd by lia.
  split; [exact Hlvl |]. split; [exact Hd |].
  destruct (round_is_won_by_feeding_the_target 1
              (Games.FeedMonster.initial ProgressManager.makeDefault) Hlvl Hd)
    as (s1 & items & Hstart & _ & Htarget & _ & Hitems & _).
  exists s1, items. auto.
Defined.


Lemma settled_transitions_single_mount_witness :
  Forall (fun e => e ≠ App.TimerFires) Scenarios.patient
  ∧ App.timers Samples.world = []
  ∧ App.mounted (App.calls Samples.world) = App.held Samples.world
  ∧ (length (App.mounted
               (App.calls (App.run (Scenarios.patient ≫= App.settled) Samples.world)))
     ≤ 1)%nat.
Proof.
  assert (Forall (fun e => e ≠ App.TimerFires) Scenarios.patient) as Hes
    by (repeat constructor; discriminate).
  split; [exact Hes |]. split; [reflexivity |]. split; [reflexivity |].
  destruct (settled_transitions_single_mount Scenarios.patient Samples.world
              Hes eq_refl eq_refl) as (_ & _ & Hlen).
  exact Hlen.
Defined.

Lemma createProfile_id_not_checked_witness :
  Storage.writable Samples.emptyStore = true
  ∧ ∃ p1 st1 p2 st2,
      ProfileManager.createProfile "Mia" (Some "🐼") Samples.env Samples.emptyStore
        = (Normal p1, st1)
      ∧ ProfileManager.createProfile "Lily" (Some "🐼") Samples.env st1
        = (Normal p2, st2)
      ∧ ProfileManager.p_id p1 = ProfileManager.p_id p2.
Proof.
  split; [reflexivity |].
  destruct (createProfile_id_not_checked "Mia" "Lily" (Some "🐼") Samples.env
              Samples.emptyStore eq_refl)
    as (p1 & st1 & p2 & st2 & H1 & H2 & Hid & _).
  exists p1, st1, p2, st2. auto.
Defined.

End FurtherInstances.
